(** * prefect.utilities.processutils: supervised child-process execution

    A shallow embedding of [src/prefect/utilities/processutils.py].

    The Python module is asynchronous and effectful.  Every call that the
    module makes on the outside world (spawning, terminating, closing,
    writing to a sink, sending a signal, printing) is recorded as an
    [event]; a computation is a pair of the events it performed and the way
    it ended ([Ok] with a value, or [Raise] with a Python exception).  What
    the outside world answers (does [process.terminate()] raise? which
    chunks does the child write?) is read from an explicit [world] record,
    so the theorems quantify over every answer. *)

From Stdlib Require Import List String ZArith Bool Lia.
Import ListNotations.
Open Scope string_scope.
Open Scope Z_scope.
Open Scope list_scope.

(** ** Python values the module inspects *)

Inductive platform := Win32 | Posix.

(** The [command] argument as a caller can pass it.  The annotation says
    [List[str]]; the [isinstance] test at the top of [open_process] exists
    because callers pass other things. *)
Inductive command_value :=
| CmdList (tokens : list string)
| CmdTuple (tokens : list string)
| CmdStr (s : string)
| CmdOther (type_name : string).

(** What reaches [anyio.open_process]: an argument vector or one string. *)
Inductive spawn_arg :=
| ArgVector (tokens : list string)
| ArgString (s : string).

Inductive stdio := PIPE | DEVNULL.

Inductive type_error :=
| NotAList (command : command_value)
| UnsupportedSink (type_name : string)
| NotSubscriptable (type_name : string).

Inductive exn :=
| TypeError (why : type_error)
| ProcessLookupError
| PermissionError
| CancelledError
| OSError (errno : Z)
| KeyboardInterrupt
| UserError (tag : string).

(** [TextSink = Union[anyio.AsyncFile, TextIO, TextSendStream]], [None]
    for "discard", and any other object a caller might hand over. *)
Inductive sink :=
| SinkNone
| SinkTextSendStream (id : nat)
| SinkTextIOBase (id : nat)
| SinkAsyncFile (id : nat)
| SinkOther (type_name : string).

Inductive channel := Stdout | Stderr.

(** What one relay does: it pulls an item from its source and acts on its
    sink.  [id] is the underlying stream or file object. *)
Inductive relay_event :=
| Item (chunk : string)
| Send (id : nat) (chunk : string)
| FileWrite (id : nat) (chunk : string)
| FileFlush (id : nat).

Inductive signal_number := SIGTERM | SIGKILL | CTRL_BREAK_EVENT.

Inductive value := VInt (z : Z) | VStr (s : string) | VNone.

(** The argument of [win32api.SetConsoleCtrlHandler]: the closure built by
    [ctrl_c_handler(process)], or whatever the installing call returned
    (the source binds that return value to [handler]). *)
Inductive ctrl_arg :=
| CtrlCHandler (pid : Z)
| InstallResult.

Inductive event :=
| Spawn (arg : spawn_arg) (stdout stderr : stdio) (new_process_group : bool)
| SetConsoleCtrlHandler (h : ctrl_arg) (add : bool)
| Enter
| Exit_
| Terminate
| Aclose (shield : bool)
| Started (v : value)
| Relay (ch : channel) (e : relay_event)
| Wait
| Body (tag : nat).

(** ** Computations: a trace and an outcome *)

Inductive outcome (A : Type) :=
| Ok (a : A)
| Raise (e : exn).
Arguments Ok {A} a.
Arguments Raise {A} e.

Definition M (E A : Type) : Type := list E * outcome A.

Definition ret {E A} (a : A) : M E A := ([], Ok a).
Definition raise {E A} (e : exn) : M E A := ([], Raise e).
Definition emit {E} (ev : E) : M E unit := ([ev], Ok tt).

Definition bind {E A B} (m : M E A) (k : A -> M E B) : M E B :=
  match snd m with
  | Ok a => (fst m ++ fst (k a), snd (k a))
  | Raise e => (fst m, Raise e)
  end.

Notation "x <- m ;; k" := (bind m (fun x => k))
  (at level 61, m at next level, right associativity).
Notation "m ;;; k" := (bind m (fun _ => k))
  (at level 61, right associativity).

(** A call whose result the world decides: the event is recorded, then the
    call returns or raises. *)
Definition call {E} (ev : E) (answer : option exn) : M E unit :=
  match answer with
  | None => ([ev], Ok tt)
  | Some e => ([ev], Raise e)
  end.

(** [try: m  finally: f].  The [finally] suite always runs; if it raises,
    its exception replaces the outcome of [m]. *)
Definition try_finally {E A} (m : M E A) (f : M E unit) : M E A :=
  match snd f with
  | Ok _ => (fst m ++ fst f, snd m)
  | Raise e => (fst m ++ fst f, Raise e)
  end.

(** [try: m  except ProcessLookupError: pass]. *)
Definition except_ProcessLookupError {E} (m : M E unit) : M E unit :=
  match snd m with
  | Raise ProcessLookupError => (fst m, Ok tt)
  | _ => m
  end.

Definition trace {E A} (m : M E A) : list E := fst m.
Definition result {E A} (m : M E A) : outcome A := snd m.

(** ** Output Stream Relay: [stream_text] *)

Module Relay.

(** [anyio.wrap_file]: an [AsyncFile] over the same underlying object. *)
Definition wrap_file (s : sink) : sink :=
  match s with
  | SinkTextIOBase id => SinkAsyncFile id
  | other => other
  end.

Definition isinstance_TextIOBase (s : sink) : bool :=
  match s with SinkTextIOBase _ => true | _ => false end.

(** The body of the [async for] loop, for one item. *)
Definition relay_item (s : sink) (item : string) : M relay_event unit :=
  match s with
  | SinkTextSendStream id => emit (Send id item)
  | SinkAsyncFile id => emit (FileWrite id item) ;;; emit (FileFlush id)
  | SinkNone => ret tt
  (* not reached from [stream_text], which wraps such a sink first *)
  | SinkTextIOBase _ => raise (TypeError (UnsupportedSink "TextIOBase"))
  | SinkOther name => raise (TypeError (UnsupportedSink name))
  end.

Fixpoint for_each (source : list string) (s : sink) : M relay_event unit :=
  match source with
  | [] => ret tt
  | item :: rest => emit (Item item) ;;; relay_item s item ;;; for_each rest s
  end.

Definition stream_text (source : list string) (s : sink) : M relay_event unit :=
  let s := if isinstance_TextIOBase s then wrap_file s else s in
  for_each source s.

End Relay.

(** ** Output Fan-out Coordinator: [consume_process_output] *)

Module FanOut.

Definition channel_eqb (a b : channel) : bool :=
  match a, b with
  | Stdout, Stdout | Stderr, Stderr => true
  | _, _ => false
  end.

(** The two relays started by [tg.start_soon] run as cooperatively
    scheduled tasks.  A schedule says which task performs its next
    operation; when the schedule is used up the remaining operations run
    stdout first.  A task that ends with an exception fails the task
    group: the sibling is cancelled where it stands and the exception
    leaves the [async with] block. *)
Fixpoint run_tasks (sched : list channel)
    (out : list relay_event) (out_end : outcome unit)
    (err : list relay_event) (err_end : outcome unit) : M event unit :=
  match sched with
  | [] =>
      (map (Relay Stdout) out, out_end) ;;; (map (Relay Stderr) err, err_end)
  | Stdout :: sched' =>
      match out, out_end with
      | e :: out', _ =>
          emit (Relay Stdout e) ;;; run_tasks sched' out' out_end err err_end
      | [], Raise ex => raise ex
      | [], Ok _ => run_tasks sched' [] out_end err err_end
      end
  | Stderr :: sched' =>
      match err, err_end with
      | e :: err', _ =>
          emit (Relay Stderr e) ;;; run_tasks sched' out out_end err' err_end
      | [], Raise ex => raise ex
      | [], Ok _ => run_tasks sched' out out_end [] err_end
      end
  end.

(** The operations of one channel inside a trace. *)
Definition on_channel (ch : channel) (t : list event) : list relay_event :=
  flat_map (fun ev => match ev with
                      | Relay c e => if channel_eqb c ch then [e] else []
                      | _ => []
                      end) t.

End FanOut.

(** ** The process handle and the outside world *)

(** The handle is known by its pid and by the chunks that can still be
    read from its two output channels. *)
Record process := {
  pid : Z;
  stdout : list string;
  stderr : list string
}.

Record world := {
  sys_platform : platform;
  child_pid : Z;
  child_stdout : list string;
  child_stderr : list string;
  spawn_answer : option exn;         (* anyio.open_process *)
  ctrl_install_answer : option exn;  (* SetConsoleCtrlHandler(_, True) *)
  exit_answer : option exn;          (* process.__aexit__ *)
  terminate_answer : option exn;     (* process.terminate() *)
  ctrl_remove_answer : option exn;   (* SetConsoleCtrlHandler(_, False) *)
  aclose_answer : option exn;        (* process.aclose() under the shield *)
  wait_answer : option exn;          (* process.wait() *)
  schedule : list channel            (* how the two relays interleave *)
}.

Definition consume_process_output (w : world) (p : process)
    (stdout_sink stderr_sink : sink) : M event unit :=
  let out := Relay.stream_text (stdout p) stdout_sink in
  let err := Relay.stream_text (stderr p) stderr_sink in
  FanOut.run_tasks (schedule w) (fst out) (snd out) (fst err) (snd err).

(** ** Process Lifecycle Guard: [open_process] *)

Definition isinstance_list (c : command_value) : bool :=
  match c with CmdList _ => true | _ => false end.

Definition piped (cfg : stdio) (chunks : list string) : list string :=
  match cfg with PIPE => chunks | DEVNULL => [] end.

Definition anyio_open_process (w : world) (arg : spawn_arg)
    (out err : stdio) (new_group : bool) : M event process :=
  call (Spawn arg out err new_group) (spawn_answer w) ;;;
  ret {| pid := child_pid w;
         stdout := piped out (child_stdout w);
         stderr := piped err (child_stderr w) |}.

(** [async with process: body].  [__aexit__] runs however the body ended
    and does not swallow the body's exception. *)
Definition async_with_process {A} (w : world) (body : M event A) : M event A :=
  emit Enter ;;; try_finally body (call Exit_ (exit_answer w)).

(** The [finally] suite: terminate (and, on Windows, take the console
    handler off) inside [try ... except ProcessLookupError], then close
    the handle inside [anyio.CancelScope(shield=True)]. *)
Definition release (w : world) : M event unit :=
  except_ProcessLookupError
    (call Terminate (terminate_answer w) ;;;
     match sys_platform w with
     | Win32 => call (SetConsoleCtrlHandler InstallResult false)
                     (ctrl_remove_answer w)
     | Posix => ret tt
     end) ;;;
  call (Aclose true) (aclose_answer w).

(** The context manager, applied to the block it guards: [body] is what
    the caller runs at the [yield].  A body that ends in [Raise e] is the
    exception thrown into the generator at the [yield]; cancellation of
    the owning task is [Raise CancelledError]. *)
Definition open_process {A} (w : world) (command : command_value)
    (out err : stdio) (body : process -> M event A) : M event A :=
  if negb (isinstance_list command) then
    raise (TypeError (NotAList command))
  else
    let tokens := match command with CmdList l => l | _ => [] end in
    p <- match sys_platform w with
         | Win32 =>
             let command := String.concat " " tokens in
             p <- anyio_open_process w (ArgString command) out err true ;;
             call (SetConsoleCtrlHandler (CtrlCHandler (pid p)) true)
                  (ctrl_install_answer w) ;;;
             ret p
         | Posix =>
             anyio_open_process w (ArgVector tokens) out err false
         end ;;
    try_finally (async_with_process w (body p)) (release w).

(** ** Process Runner: [run_process] *)

Inductive stream_output_value :=
| SOBool (b : bool)
| SOPair (stdout_sink stderr_sink : sink).

(** [sys.stdout] and [sys.stderr] are text files of the parent. *)
Definition sys_stdout : sink := SinkTextIOBase 1.
Definition sys_stderr : sink := SinkTextIOBase 2.

(** Python truthiness: a two-element tuple is true whatever it holds. *)
Definition truthy (so : stream_output_value) : bool :=
  match so with
  | SOBool b => b
  | SOPair _ _ => true
  end.

Definition run_process (w : world) (command : command_value)
    (stream_output : stream_output_value)
    (task_status : bool)   (* [task_status is not None] *)
    (task_status_handler : option (process -> value)) : M event process :=
  let stream_output :=
    match stream_output with
    | SOBool true => SOPair sys_stdout sys_stderr
    | other => other
    end in
  open_process w command
    (if truthy stream_output then PIPE else DEVNULL)
    (if truthy stream_output then PIPE else DEVNULL)
    (fun process =>
       (if task_status then
          let task_status_handler :=
            match task_status_handler with
            | None => fun process => VInt (pid process)
            | Some h => h
            end in
          emit (Started (task_status_handler process))
        else ret tt) ;;;
       (if truthy stream_output then
          match stream_output with
          | SOPair a b => consume_process_output w process a b
          | SOBool _ => raise (TypeError (NotSubscriptable "bool"))
          end
        else ret tt) ;;;
       call Wait (wait_answer w) ;;;
       ret process).

(** ** Interrupt Escalation Handler: [kill_on_interrupt] *)

Module Interrupt.

(** The process-wide SIGINT disposition.  [stop_process] and
    [kill_process] are the two closures of [kill_on_interrupt]; they
    capture [pid] and [process_name] (and, for [stop_process], the branch
    of [sys.platform] that defined it). *)
Inductive handler :=
| default_int_handler
| stop_process (plat : platform) (pid : Z) (process_name : string)
| kill_process (pid : Z) (process_name : string).

Inductive sig_event :=
| Print (msg : string)
| Kill (pid : Z) (sig : signal_number).

Definition newline : string := String (Ascii.ascii_of_nat 10) EmptyString.

Definition stopping (process_name : string) : string :=
  (newline ++ "Stopping " ++ process_name ++ "...")%string.

Definition killing (process_name : string) : string :=
  (newline ++ "Killing " ++ process_name ++ "...")%string.

(** [signal.signal(signal.SIGINT, stop_process)]: whatever was installed
    before is overwritten. *)
Definition kill_on_interrupt (plat : platform) (pid : Z)
    (process_name : string) (sigint : handler) : handler :=
  stop_process plat pid process_name.

(** One SIGINT arrives: the installed handler runs.  [os_kill] is what
    [os.kill] answers this time.  The result is the new disposition and
    what the handler did. *)
Definition deliver_sigint (os_kill : option exn) (sigint : handler)
  : handler * M sig_event unit :=
  match sigint with
  | default_int_handler => (sigint, raise KeyboardInterrupt)
  | stop_process Win32 pid name =>
      (sigint,
       emit (Print (stopping name)) ;;; call (Kill pid CTRL_BREAK_EVENT) os_kill)
  | stop_process Posix pid name =>
      let m :=
        emit (Print (stopping name)) ;;; call (Kill pid SIGTERM) os_kill in
      match snd m with
      | Ok _ => (kill_process pid name, m)
      | Raise _ => (sigint, m)
      end
  | kill_process pid name =>
      (sigint,
       emit (Print (killing name)) ;;; call (Kill pid SIGKILL) os_kill)
  end.

(** Several interrupts in a row; an exception leaving a handler is the
    interrupted code's concern and does not touch the disposition. *)
Fixpoint deliver_all (answers : list (option exn)) (sigint : handler)
  : handler * list sig_event :=
  match answers with
  | [] => (sigint, [])
  | a :: rest =>
      let '(h, m) := deliver_sigint a sigint in
      let '(h', t) := deliver_all rest h in
      (h', fst m ++ t)
  end.

(** The spec's two states, read off the disposition. *)
Inductive interrupt_state := NORMAL | TERMINATING.

Definition state_of (sigint : handler) : option interrupt_state :=
  match sigint with
  | stop_process _ _ _ => Some NORMAL
  | kill_process _ _ => Some TERMINATING
  | default_int_handler => None
  end.

End Interrupt.

(** * Vocabulary of the specification *)

(** What the spec says a relay does with one chunk, by kind of sink. *)
Definition deliver (s : sink) (chunk : string) : list relay_event :=
  match s with
  | SinkTextSendStream id => [Send id chunk]
  | SinkTextIOBase id | SinkAsyncFile id => [FileWrite id chunk; FileFlush id]
  | SinkNone | SinkOther _ => []
  end.

Definition relayed (s : sink) (source : list string) : list relay_event :=
  flat_map (fun chunk => Item chunk :: deliver s chunk) source.

Definition recognized (s : sink) : bool :=
  match s with SinkOther _ => false | _ => true end.

Definition discards (s : sink) : bool :=
  match s with SinkNone => true | _ => false end.

(** The chunks a trace hands to a sink, and the chunks it pulls. *)
Definition handed_over (t : list relay_event) : list string :=
  flat_map (fun e => match e with
                     | Send _ c | FileWrite _ c => [c]
                     | _ => []
                     end) t.

Definition pulled (t : list relay_event) : list string :=
  flat_map (fun e => match e with Item c => [c] | _ => [] end) t.

(** "An ordered sequence of string tokens": a list or a tuple. *)
Definition is_ordered_token_sequence (c : command_value) : bool :=
  match c with
  | CmdList _ | CmdTuple _ => true
  | CmdStr _ | CmdOther _ => false
  end.

(** The handle that a successful spawn returns. *)
Definition spawned (w : world) (out err : stdio) : process :=
  {| pid := child_pid w;
     stdout := piped out (child_stdout w);
     stderr := piped err (child_stderr w) |}.

(** What reaches the spawn primitive for a given token list. *)
Definition launch_argument (plat : platform) (tokens : list string) : spawn_arg :=
  match plat with
  | Win32 => ArgString (String.concat " " tokens)
  | Posix => ArgVector tokens
  end.

Definition is_win32 (plat : platform) : bool :=
  match plat with Win32 => true | Posix => false end.

(** The events of a successful acquisition. *)
Definition acquisition (w : world) (tokens : list string) (out err : stdio)
  : list event :=
  Spawn (launch_argument (sys_platform w) tokens) out err
        (is_win32 (sys_platform w))
  :: match sys_platform w with
     | Win32 => [SetConsoleCtrlHandler (CtrlCHandler (child_pid w)) true]
     | Posix => []
     end.

(** The process is held: it was spawned and, on Windows, the console
    handler went in. *)
Definition acquired (w : world) : bool :=
  match spawn_answer w, sys_platform w, ctrl_install_answer w with
  | None, Posix, _ => true
  | None, Win32, None => true
  | _, _, _ => false
  end.



Definition is_started (e : event) : bool :=
  match e with Started _ => true | _ => false end.

Definition is_relay (e : event) : bool :=
  match e with Relay _ _ => true | _ => false end.

Definition is_spawn (e : event) : bool :=
  match e with Spawn _ _ _ _ => true | _ => false end.


Definition is_handler_removal (e : event) : bool :=
  match e with SetConsoleCtrlHandler _ false => true | _ => false end.

Definition is_handler_install (e : event) : bool :=
  match e with SetConsoleCtrlHandler _ true => true | _ => false end.

(** The value handed to [task_status.started]. *)
Definition reported (h : option (process -> value)) (p : process) : value :=
  match h with
  | None => VInt (pid p)
  | Some f => f p
  end.

(** The sink a channel ends up with, for a given [stream_output]. *)
Definition sink_of (so : stream_output_value) (ch : channel) : sink :=
  match so, ch with
  | SOBool true, Stdout => sys_stdout
  | SOBool true, Stderr => sys_stderr
  | SOBool false, _ => SinkNone
  | SOPair a _, Stdout => a
  | SOPair _ b, Stderr => b
  end.

(** How a trace says a channel was wired at spawn. *)
Definition wiring (t : list event) (ch : channel) : option stdio :=
  match find is_spawn t with
  | Some (Spawn _ out err _) =>
      Some match ch with Stdout => out | Stderr => err end
  | _ => None
  end.

(** ** Concrete worlds used as examples *)

Definition posix_world : world :=
  {| sys_platform := Posix; child_pid := 4242;
     child_stdout := ["hello"; "world"]; child_stderr := ["oops"];
     spawn_answer := None; ctrl_install_answer := None;
     exit_answer := None; terminate_answer := None;
     ctrl_remove_answer := None; aclose_answer := None;
     wait_answer := None; schedule := [Stderr; Stdout; Stdout] |}.

Definition win32_world : world :=
  {| sys_platform := Win32; child_pid := 1300;
     child_stdout := ["hello"]; child_stderr := [];
     spawn_answer := None; ctrl_install_answer := None;
     exit_answer := None; terminate_answer := None;
     ctrl_remove_answer := None; aclose_answer := None;
     wait_answer := None; schedule := [] |}.

(** The same world, except for what [process.terminate()] answers. *)
Definition with_terminate (a : option exn) (w : world) : world :=
  {| sys_platform := sys_platform w; child_pid := child_pid w;
     child_stdout := child_stdout w; child_stderr := child_stderr w;
     spawn_answer := spawn_answer w;
     ctrl_install_answer := ctrl_install_answer w;
     exit_answer := exit_answer w; terminate_answer := a;
     ctrl_remove_answer := ctrl_remove_answer w;
     aclose_answer := aclose_answer w;
     wait_answer := wait_answer w; schedule := schedule w |}.

Definition sleep_60 : command_value := CmdList ["sleep"; "60"].



Definition dir_command : command_value := CmdList ["cmd"; "/c"; "dir"].

(** * Further vocabulary *)

(** ** The Windows spawn shim: [create_subprocess] inside [open_process] *)

Module Shim.

Inductive kwarg_value :=
| KStdio (cfg : stdio)
| KStr (s : string)
| KInt (z : Z)
| KNone.

(** A keyword dictionary, in insertion order; keys are unique in Python,
    and lookups here take the first entry of a key. *)
Definition kwargs := list (string * kwarg_value).

Definition anyio_kwargs : list string := ["stdout"; "stderr"; "cwd"; "env"].

(** [subprocess.CREATE_NEW_PROCESS_GROUP] *)
Definition CREATE_NEW_PROCESS_GROUP : Z := 512.

Definition key_in (k : string) (keys : list string) : bool :=
  existsb (String.eqb k) keys.

Fixpoint get (k : string) (d : kwargs) : option kwarg_value :=
  match d with
  | [] => None
  | (k', v) :: rest => if String.eqb k k' then Some v else get k rest
  end.

(** [d[k] = v]: an existing key keeps its place, a new key goes last. *)
Fixpoint set (k : string) (v : kwarg_value) (d : kwargs) : kwargs :=
  match d with
  | [] => [(k, v)]
  | (k', v') :: rest =>
      if String.eqb k k' then (k', v) :: rest else (k', v') :: set k v rest
  end.

(** The keyword arguments that reach [asyncio.create_subprocess_shell]. *)
Definition create_subprocess (kw : kwargs) : kwargs :=
  let kw := filter (fun kv => key_in (fst kv) anyio_kwargs) kw in
  set "creationflags" (KInt CREATE_NEW_PROCESS_GROUP) kw.

End Shim.

(** ** The console handler: [ctrl_c_handler] *)

(** [ctrl_c_handler(process)] returns [handler]; this is a call of [handler]:
    it signals the child with [os.kill] and returns [False]. *)
Definition ctrl_c_handler (p : process) (os_kill : option exn)
  : M Interrupt.sig_event bool :=
  call (Interrupt.Kill (pid p) CTRL_BREAK_EVENT) os_kill ;;; ret false.

(** ** Reading traces and worlds *)

Definition is_console (e : event) : bool :=
  match e with SetConsoleCtrlHandler _ _ => true | _ => false end.

Definition is_wait (e : event) : bool :=
  match e with Wait => true | _ => false end.

Definition is_terminate (e : event) : bool :=
  match e with Terminate => true | _ => false end.

(** The exception, if any, with which the release path ends, read off the
    world's answers. *)
Definition release_raises (w : world) : option exn :=
  match terminate_answer w with
  | Some ProcessLookupError => aclose_answer w
  | Some e => Some e
  | None =>
      match sys_platform w, ctrl_remove_answer w with
      | Win32, Some ProcessLookupError => aclose_answer w
      | Win32, Some e => Some e
      | _, _ => aclose_answer w
      end
  end.

Definition is_prefix {X} (p l : list X) : Prop := exists rest, l = p ++ rest.

Definition fails {A} (o : outcome A) : bool :=
  match o with Ok _ => false | Raise _ => true end.

(** What one interrupt in each state does. *)
Definition stop_events (pid : Z) (name : string) : list Interrupt.sig_event :=
  [Interrupt.Print (Interrupt.stopping name); Interrupt.Kill pid SIGTERM].

Definition kill_events (pid : Z) (name : string) : list Interrupt.sig_event :=
  [Interrupt.Print (Interrupt.killing name); Interrupt.Kill pid SIGKILL].

(** An event of the handler installed for [pid] and [name]. *)
Definition concerns (pid : Z) (name : string) (e : Interrupt.sig_event) : Prop :=
  match e with
  | Interrupt.Kill p _ => p = pid
  | Interrupt.Print msg =>
      msg = Interrupt.stopping name \/ msg = Interrupt.killing name
  end.

(** The operations the guard performs itself. *)
Definition guard_event (e : event) : bool :=
  match e with
  | Spawn _ _ _ _ | SetConsoleCtrlHandler _ _ | Enter | Exit_
  | Terminate | Aclose _ => true
  | _ => false
  end.

(** Every sink named by [stream_output] is of a kind [stream_text]
    accepts. *)
Definition relays_supported (so : stream_output_value) : bool :=
  match so with
  | SOBool _ => true
  | SOPair a b => recognized a && recognized b
  end.

(** The part of the body of [run_process] between the report and the
    wait. *)
Definition relaying (w : world) (so : stream_output_value) (p : process)
  : M event unit :=
  if truthy so then
    match so with
    | SOPair a b => consume_process_output w p a b
    | SOBool _ => raise (TypeError (NotSubscriptable "bool"))
    end
  else ret tt.

(** [stream_output] after the first statement of [run_process]. *)
Definition normalized (so : stream_output_value) : stream_output_value :=
  match so with
  | SOBool true => SOPair sys_stdout sys_stderr
  | other => other
  end.

(** The block that [run_process] guards. *)
Definition run_body (w : world) (so : stream_output_value) (ts : bool)
    (h : option (process -> value)) (p : process) : M event process :=
  (if ts then emit (Started (reported h p)) else ret tt) ;;;
  relaying w (normalized so) p ;;;
  call Wait (wait_answer w) ;;;
  ret p.

(** * prefect.environments.execution.fargate.fargate_task

    [FargateTaskEnvironment.replace_values] mutates the container
    definitions it is given.  The dictionaries and the lists involved are
    Python objects, so they live in a store and are named by their
    address: two containers may be one dictionary, and two dictionaries
    may hold one ["environment"] list. *)

Module Fargate.

(** An element of a list object: a string, or a dictionary of strings
    (an environment entry such as [{"name": n, "value": v}]). *)
Inductive item :=
| IStr (s : string)
| IDict (d : list (string * string)).

(** A value held by a container dictionary. *)
Inductive pv :=
| PStr (s : string)
| PInt (z : Z)
| PList (addr : nat).

Definition dict := list (string * pv).

Record heap := {
  dicts : list dict;          (* dictionary objects, by address *)
  lists : list (list item)    (* list objects, by address *)
}.

(** [Dangling] is an address outside the store; Python has no such
    reference, it is here because the store is a list. *)
Inductive error :=
| KeyError (key : string)
| IndexError
| AttributeError (attr : string)
| Dangling.

Fixpoint lookup (k : string) (d : dict) : option pv :=
  match d with
  | [] => None
  | (k', v) :: rest => if String.eqb k k' then Some v else lookup k rest
  end.

(** [d[k] = v] *)
Fixpoint assign (k : string) (v : pv) (d : dict) : dict :=
  match d with
  | [] => [(k, v)]
  | (k', v') :: rest =>
      if String.eqb k k' then (k', v) :: rest else (k', v') :: assign k v rest
  end.

Fixpoint update {X} (n : nat) (f : X -> X) (l : list X) : list X :=
  match l, n with
  | [], _ => []
  | x :: rest, O => f x :: rest
  | x :: rest, S n' => x :: update n' f rest
  end.

Definition entry (name value : string) : item :=
  IDict [("name", name); ("value", value)].

(** [config.cloud.api or "https://api.prefect.io"] *)
Definition api_or_default (api : option string) : string :=
  match api with
  | None | Some EmptyString => "https://api.prefect.io"
  | Some url => url
  end.

Definition env_values (api : option string)
    (docker_name flow_file_path : string) : list item :=
  [ entry "PREFECT__CLOUD__API" (api_or_default api);
    entry "PREFECT__CONTEXT__IMAGE" docker_name;
    entry "PREFECT__CONTEXT__FLOW_FILE_PATH" flow_file_path;
    entry "PREFECT__CLOUD__USE_LOCAL_SECRETS" "false";
    entry "PREFECT__LOGGING__LOG_TO_CLOUD" "true";
    entry "PREFECT__LOGGING__LEVEL" "DEBUG";
    entry "PREFECT__ENGINE__FLOW_RUNNER__DEFAULT_CLASS"
          "prefect.engine.cloud.CloudFlowRunner";
    entry "PREFECT__ENGINE__TASK_RUNNER__DEFAULT_CLASS"
          "prefect.engine.cloud.CloudTaskRunner" ].

Definition run_flow_command : list item :=
  [ IStr "/bin/sh"; IStr "-c";
    IStr "python -c 'from prefect.environments import FargateTaskEnvironment; FargateTaskEnvironment().run_flow()'" ].

(** [container["environment"].extend(env_values)] for the container at
    [c]. *)
Definition extend_environment (env : list item) (c : nat) (h : heap)
  : heap * option error :=
  match nth_error (dicts h) c with
  | None => (h, Some Dangling)
  | Some d =>
      match lookup "environment" d with
      | None => (h, Some (KeyError "environment"))
      | Some (PList a) =>
          match nth_error (lists h) a with
          | None => (h, Some Dangling)
          | Some _ =>
              ({| dicts := dicts h;
                  lists := update a (fun l => l ++ env) (lists h) |}, None)
          end
      | Some _ => (h, Some (AttributeError "extend"))
      end
  end.

(** [for container in container_definitions: ...] *)
Fixpoint extend_all (env : list item) (defs : list nat) (h : heap)
  : heap * option error :=
  match defs with
  | [] => (h, None)
  | c :: rest =>
      match extend_environment env c h with
      | (h', None) => extend_all env rest h'
      | (h', Some e) => (h', Some e)
      end
  end.

(** The method: the store after the call, and the returned list (the
    argument itself) or the exception. *)
Definition replace_values (api : option string)
    (container_definitions : list nat)
    (docker_name flow_file_path : string) (h : heap)
  : heap * (error + list nat) :=
  let env_values := env_values api docker_name flow_file_path in
  match extend_all env_values container_definitions h with
  | (h, Some e) => (h, inl e)
  | (h, None) =>
      match container_definitions with
      | [] => (h, inl IndexError)
      | c0 :: _ =>
          let h :=
            {| dicts := update c0 (assign "image" (PStr docker_name)) (dicts h);
               lists := lists h |} in
          let command := List.length (lists h) in
          let h :=
            {| dicts := update c0 (assign "command" (PList command)) (dicts h);
               lists := lists h ++ [run_flow_command] |} in
          (h, inr container_definitions)
      end
  end.

(** The list object a container's ["environment"] names. *)
Definition environment_of (h : heap) (c : nat) : option nat :=
  match nth_error (dicts h) c with
  | Some d =>
      match lookup "environment" d with
      | Some (PList a) => if Nat.ltb a (List.length (lists h)) then Some a else None
      | _ => None
      end
  | None => None
  end.

(** The container is a dictionary with a list under ["environment"]. *)
Definition ready (h : heap) (c : nat) : bool :=
  match environment_of h c with Some _ => true | None => false end.

(** How many of the containers hold the list at [a] as their
    environment. *)
Definition holders (h : heap) (defs : list nat) (a : nat) : nat :=
  count_occ Nat.eq_dec
    (flat_map (fun c => match environment_of h c with
                        | Some a' => [a']
                        | None => []
                        end) defs) a.

(** Two containers of a task definition, each with its own environment
    list. *)
Definition two_containers : heap :=
  {| dicts := [ [("name", PStr "flow"); ("environment", PList 0)];
                [("name", PStr "sidecar"); ("image", PStr "busybox");
                 ("environment", PList 1)] ];
     lists := [ [entry "A" "1"]; [] ] |}.

(** The same two containers, sharing one environment list. *)
Definition shared_environment : heap :=
  {| dicts := [ [("name", PStr "flow"); ("environment", PList 0)];
                [("name", PStr "sidecar"); ("environment", PList 0)] ];
     lists := [ [entry "A" "1"] ] |}.

(** The two containers and a third dictionary that has no
    ["environment"] key. *)
Definition with_bare_container : heap :=
  {| dicts := dicts two_containers ++ [[("name", PStr "bare")]];
     lists := lists two_containers |}.

End Fargate.

(** * Properties *)

(** ** The relay and the fan-out *)

Section RelayFacts.

Lemma stream_text_relayed (source : list string) (s : sink) :
  recognized s = true ->
  Relay.stream_text source s = (relayed s source, Ok tt).
Proof.
  intros Hs. unfold Relay.stream_text.
  induction source as [|c rest IH]; [reflexivity|].
  cbn [Relay.for_each relayed flat_map].
  fold (relayed s rest). unfold bind at 1. cbn [emit fst snd].
  destruct s; try discriminate; cbn in IH |- *; rewrite IH; reflexivity.
Qed.

Lemma pulled_relayed (s : sink) (source : list string) :
  pulled (relayed s source) = source.
Proof.
  induction source as [|c rest IH]; [reflexivity|].
  change (relayed s (c :: rest))
    with ((Item c :: deliver s c) ++ relayed s rest).
  unfold pulled in *. rewrite flat_map_app, IH.
  destruct s; reflexivity.
Qed.

Lemma handed_over_relayed (s : sink) (source : list string) :
  recognized s = true -> discards s = false ->
  handed_over (relayed s source) = source.
Proof.
  intros Hr Hd.
  induction source as [|c rest IH]; [reflexivity|].
  change (relayed s (c :: rest))
    with ((Item c :: deliver s c) ++ relayed s rest).
  unfold handed_over in *. rewrite flat_map_app, IH.
  destruct s; try discriminate; reflexivity.
Qed.

Lemma on_channel_app ch (a b : list event) :
  FanOut.on_channel ch (a ++ b) = FanOut.on_channel ch a ++ FanOut.on_channel ch b.
Proof. apply flat_map_app. Qed.

Lemma on_channel_same ch (t : list relay_event) :
  FanOut.on_channel ch (map (Relay ch) t) = t.
Proof.
  induction t as [|e t IH]; [reflexivity|].
  cbn. destruct ch; cbn; f_equal; exact IH.
Qed.

Lemma on_channel_other ch ch' (t : list relay_event) :
  FanOut.channel_eqb ch' ch = false ->
  FanOut.on_channel ch (map (Relay ch') t) = [].
Proof.
  intros H. induction t as [|e t IH]; [reflexivity|].
  cbn. rewrite H. exact IH.
Qed.

(** Whatever the schedule, two relays that end normally perform all of
    their operations, each channel in its own order. *)
Lemma run_tasks_ok (sched : list channel) :
  forall out err,
    let m := FanOut.run_tasks sched out (Ok tt) err (Ok tt) in
    snd m = Ok tt /\
    FanOut.on_channel Stdout (fst m) = out /\
    FanOut.on_channel Stderr (fst m) = err.
Proof.
  induction sched as [|ch sched IH]; intros out err.
  - cbn [FanOut.run_tasks]. unfold bind. cbn [fst snd].
    rewrite !on_channel_app, !on_channel_same.
    rewrite !on_channel_other by reflexivity.
    rewrite app_nil_r. auto.
  - destruct ch; cbn [FanOut.run_tasks].
    + destruct out as [|e out'].
      * apply IH.
      * destruct (IH out' err) as (Ho & H1 & H2).
        unfold bind; cbn [emit fst snd]. rewrite Ho.
        cbn [fst snd]. rewrite !on_channel_app, H1, H2.
        repeat split; reflexivity.
    + destruct err as [|e err'].
      * apply IH.
      * destruct (IH out err') as (Ho & H1 & H2).
        unfold bind; cbn [emit fst snd]. rewrite Ho.
        cbn [fst snd]. rewrite !on_channel_app, H1, H2.
        repeat split; reflexivity.
Qed.

End RelayFacts.

(** ** The lifecycle guard *)

Section GuardFacts.

Lemma fst_bind_cons {E B C} (m : M E B) (k : B -> M E C) e t :
  fst m = e :: t -> exists rest, fst (bind m k) = e :: rest.
Proof.
  intros H. unfold bind. destruct (snd m); cbn [fst]; rewrite H;
    eexists; reflexivity.
Qed.



(** Shape of a guarded block once the process is held. *)
Lemma open_process_acquired {A} (w : world) (tokens : list string)
    (out err : stdio) (body : process -> M event A) :
  acquired w = true ->
  fst (open_process w (CmdList tokens) out err body) =
    acquisition w tokens out err ++ Enter ::
    fst (body (spawned w out err)) ++ Exit_ :: fst (release w).
Proof.
  unfold acquired, open_process, acquisition, anyio_open_process,
    async_with_process, try_finally.
  fold (spawned w out err).
  intros H. cbn [isinstance_list negb].
  destruct (spawn_answer w); [discriminate|].
  destruct (sys_platform w).
  - destruct (ctrl_install_answer w); [discriminate|].
    cbn. destruct (body (spawned w out err)) as [t o].
    destruct (exit_answer w), (snd (release w)), o; cbn;
      rewrite <- ?app_assoc; reflexivity.
  - cbn. destruct (body (spawned w out err)) as [t o].
    destruct (exit_answer w), (snd (release w)), o; cbn;
      rewrite <- ?app_assoc; reflexivity.
Qed.

(** Whatever the world answers, a list command reaches the spawn
    primitive first. *)
Lemma open_process_spawns_first {A} (w : world) (tokens : list string)
    (out err : stdio) (body : process -> M event A) :
  exists rest,
    trace (open_process w (CmdList tokens) out err body) =
      Spawn (match sys_platform w with
             | Win32 => ArgString (String.concat " " tokens)
             | Posix => ArgVector tokens
             end)
            out err
            (match sys_platform w with Win32 => true | Posix => false end)
      :: rest.
Proof.
  unfold trace, open_process. cbn [isinstance_list negb].
  match goal with
  | |- exists rest, fst (bind ?acq _) = ?ev :: rest =>
      assert (Hacq : exists t, fst acq = ev :: t)
  end.
  { unfold anyio_open_process.
    destruct (sys_platform w), (spawn_answer w), (ctrl_install_answer w);
      eexists; reflexivity. }
  destruct Hacq as [t Ht].
  exact (fst_bind_cons _ _ _ _ Ht).
Qed.

Lemma fst_try_finally {E B} (m : M E B) (f : M E unit) :
  fst (try_finally m f) = fst m ++ fst f.
Proof. unfold try_finally. destruct (snd f); reflexivity. Qed.


(** Without the process held the guarded block does not run: nothing of
    it is in the trace. *)
Lemma open_process_not_acquired {A} (P : event -> bool)
    (w : world) (tokens : list string)
    (out err : stdio) (body : process -> M event A) :
  (forall a o e g, P (Spawn a o e g) = false) ->
  (forall c b, P (SetConsoleCtrlHandler c b) = false) ->
  acquired w = false ->
  existsb P (fst (open_process w (CmdList tokens) out err body)) = false.
Proof.
  unfold acquired, open_process, anyio_open_process.
  intros H1 H2 H. cbn [isinstance_list negb].
  destruct (spawn_answer w), (sys_platform w);
    try (cbn; now rewrite H1); try discriminate H.
  destruct (ctrl_install_answer w); [|discriminate H].
  cbn. now rewrite H1, H2.
Qed.

End GuardFacts.

(** ** Claims about the relay *)

(** C3. For every finite sequence of chunks and every recognized sink,
    [stream_text] ends normally after pulling every chunk once, in order,
    and doing with each what the sink's kind asks: [send] for a stream
    abstraction, [write] then [flush] for a blocking file (or an
    [AsyncFile]), nothing for discard; so the chunks handed to a
    non-discard sink are the source's chunks, once each, in FIFO order.
    In the fan-out, and hence in a streaming [run_process], whatever the
    interleaving of the two relays, the operations on the stdout channel
    are those of the stdout relay and the operations on the stderr
    channel those of the stderr relay. *)
Theorem C3_relay_delivers_in_order
    (w : world) (tokens : list string) (a b : sink)
    (ts : bool) (h : option (process -> value))
    (Ha : recognized a = true) (Hb : recognized b = true)
    (Hacq : acquired w = true) :
  (forall source,
      Relay.stream_text source a = (relayed a source, Ok tt) /\
      pulled (relayed a source) = source /\
      (if discards a then handed_over (relayed a source) = []
       else handed_over (relayed a source) = source)) /\
  (forall p,
      let m := consume_process_output w p a b in
      result m = Ok tt /\
      FanOut.on_channel Stdout (trace m) = relayed a (stdout p) /\
      FanOut.on_channel Stderr (trace m) = relayed b (stderr p)) /\
  (let t := trace (run_process w (CmdList tokens) (SOPair a b) ts h) in
   FanOut.on_channel Stdout t = relayed a (child_stdout w) /\
   FanOut.on_channel Stderr t = relayed b (child_stderr w)).
Proof.
  assert (Hfan : forall p,
      let m := consume_process_output w p a b in
      result m = Ok tt /\
      FanOut.on_channel Stdout (trace m) = relayed a (stdout p) /\
      FanOut.on_channel Stderr (trace m) = relayed b (stderr p)).
  { intros p. unfold consume_process_output, result, trace.
    rewrite (stream_text_relayed (stdout p) a Ha).
    rewrite (stream_text_relayed (stderr p) b Hb).
    cbn [fst snd]. apply run_tasks_ok. }
  split; [|split].
  - intros source. split; [now apply stream_text_relayed|].
    split; [apply pulled_relayed|].
    destruct (discards a) eqn:Hd.
    + destruct a; try discriminate.
      induction source as [|c rest IH]; [reflexivity|exact IH].
    + now apply handed_over_relayed.
  - exact Hfan.
  - unfold trace, run_process. cbn [truthy].
    rewrite (open_process_acquired w tokens PIPE PIPE _ Hacq).
    destruct (Hfan (spawned w PIPE PIPE)) as (Hok & H1 & H2).
    unfold result, trace in Hok, H1, H2.
    assert (Hbody : forall ch,
      FanOut.on_channel ch
        (fst ((if ts then emit (Started (reported h (spawned w PIPE PIPE)))
               else ret tt) ;;;
              consume_process_output w (spawned w PIPE PIPE) a b ;;;
              call Wait (wait_answer w) ;;; ret (spawned w PIPE PIPE)))
      = FanOut.on_channel ch
          (fst (consume_process_output w (spawned w PIPE PIPE) a b))).
    { intros ch. unfold bind at 2. rewrite Hok. cbn [fst snd].
      destruct ts, (wait_answer w); unfold bind; cbn [emit ret call fst snd];
        rewrite ?on_channel_app; cbn; rewrite ?app_nil_r; reflexivity. }
    assert (Hrel : forall ch, FanOut.on_channel ch (fst (release w)) = []).
    { intros ch. unfold release.
      destruct (terminate_answer w) as [[]|], (sys_platform w),
        (ctrl_remove_answer w) as [[]|], (aclose_answer w); reflexivity. }
    assert (Hacqn : forall ch,
      FanOut.on_channel ch (acquisition w tokens PIPE PIPE) = []).
    { intros ch. unfold acquisition. destruct (sys_platform w); reflexivity. }
    split.
    + rewrite on_channel_app, Hacqn.
      change (Enter :: ?x) with ([Enter] ++ x).
      rewrite on_channel_app, on_channel_app.
      change (Exit_ :: ?x) with ([Exit_] ++ x).
      rewrite on_channel_app, Hrel.
      cbn [app]. unfold reported in Hbody.
      destruct h; rewrite Hbody, H1; cbn; now rewrite app_nil_r.
    + rewrite on_channel_app, Hacqn.
      change (Enter :: ?x) with ([Enter] ++ x).
      rewrite on_channel_app, on_channel_app.
      change (Exit_ :: ?x) with ([Exit_] ++ x).
      rewrite on_channel_app, Hrel.
      cbn [app]. unfold reported in Hbody.
      destruct h; rewrite Hbody, H2; cbn; now rewrite app_nil_r.
Qed.

Lemma C3_witness :
  recognized (SinkTextSendStream 7) = true /\
  recognized sys_stderr = true /\
  acquired posix_world = true /\
  FanOut.on_channel Stdout
    (trace (run_process posix_world (CmdList ["echo"; "hello"])
              (SOPair (SinkTextSendStream 7) sys_stderr) true None))
  = relayed (SinkTextSendStream 7) ["hello"; "world"].
Proof.
  split; [reflexivity|]. split; [reflexivity|]. split; [reflexivity|].
  exact (proj1 (proj2 (proj2
    (C3_relay_delivers_in_order posix_world ["echo"; "hello"]
       (SinkTextSendStream 7) sys_stderr true None
       eq_refl eq_refl eq_refl)))).
Defined.

(** C9. The unsupported-sink error is raised per chunk, not up front: with
    a sink of no recognized kind, [stream_text] on a source that yields
    nothing ends normally without any operation, and on a source that
    yields at least one chunk it pulls the first chunk, raises
    [TypeError] for the sink's type, and pulls nothing more. *)
Theorem C9_unsupported_sink_is_lazy (s : sink) (Hs : recognized s = false) :
  Relay.stream_text [] s = ([], Ok tt) /\
  forall chunk rest,
    exists name,
      s = SinkOther name /\
      Relay.stream_text (chunk :: rest) s =
        ([Item chunk], Raise (TypeError (UnsupportedSink name))).
Proof.
  destruct s as [| | | |name]; try discriminate.
  split; [reflexivity|].
  intros chunk rest. exists name. split; reflexivity.
Qed.

Lemma C9_witness :
  recognized (SinkOther "BytesIO") = false /\
  Relay.stream_text [] (SinkOther "BytesIO") = ([], Ok tt).
Proof.
  split; [reflexivity|].
  exact (proj1 (C9_unsupported_sink_is_lazy (SinkOther "BytesIO") eq_refl)).
Defined.

(** ** Claims about interrupt escalation *)

Section InterruptFacts.

Import Interrupt.

Lemma deliver_all_terminating (answers : list (option exn)) pid name :
  deliver_all answers (kill_process pid name) =
    (kill_process pid name,
     flat_map (fun _ => [Print (killing name); Kill pid SIGKILL]) answers).
Proof.
  induction answers as [|a rest IH]; [reflexivity|].
  cbn [deliver_all deliver_sigint]. rewrite IH.
  destruct a; reflexivity.
Qed.

Lemma deliver_all_win32 (answers : list (option exn)) pid name :
  deliver_all answers (stop_process Win32 pid name) =
    (stop_process Win32 pid name,
     flat_map (fun _ => [Print (stopping name); Kill pid CTRL_BREAK_EVENT])
              answers).
Proof.
  induction answers as [|a rest IH]; [reflexivity|].
  cbn [deliver_all deliver_sigint]. rewrite IH.
  destruct a; reflexivity.
Qed.

End InterruptFacts.

(** C4, as the code has it.  [kill_on_interrupt] installs a two-state
    machine on SIGINT.  Off Windows: it starts in NORMAL; there every
    interrupt prints the "Stopping <name>" line and calls
    [os.kill(pid, SIGTERM)]; when that call returns the machine goes to
    TERMINATING, when it raises the exception leaves the handler and the
    machine stays in NORMAL.  In TERMINATING every further interrupt
    prints the "Killing <name>" line and sends SIGKILL, and the machine
    stays in TERMINATING however many interrupts follow.  On Windows
    every interrupt prints the "Stopping <name>" line and sends
    CTRL_BREAK_EVENT, and the disposition never changes: there is no
    second tier.  (The lines are the source's: a newline, the words, the
    name, three dots.) *)
Theorem C4_interrupt_escalation
    (pid : Z) (name : string) (prior : Interrupt.handler) :
  let normal := Interrupt.kill_on_interrupt Posix pid name prior in
  let terminating := Interrupt.kill_process pid name in
  let windows := Interrupt.kill_on_interrupt Win32 pid name prior in
  Interrupt.state_of normal = Some Interrupt.NORMAL /\
  Interrupt.state_of terminating = Some Interrupt.TERMINATING /\
  Interrupt.deliver_sigint None normal =
    (terminating,
     ([Interrupt.Print (Interrupt.stopping name); Interrupt.Kill pid SIGTERM],
      Ok tt)) /\
  (forall e,
      Interrupt.deliver_sigint (Some e) normal =
        (normal,
         ([Interrupt.Print (Interrupt.stopping name);
           Interrupt.Kill pid SIGTERM],
          Raise e))) /\
  (forall a,
      fst (Interrupt.deliver_sigint a terminating) = terminating /\
      trace (snd (Interrupt.deliver_sigint a terminating)) =
        [Interrupt.Print (Interrupt.killing name); Interrupt.Kill pid SIGKILL]) /\
  (forall answers,
      Interrupt.deliver_all answers terminating =
        (terminating,
         flat_map (fun _ => [Interrupt.Print (Interrupt.killing name);
                             Interrupt.Kill pid SIGKILL]) answers)) /\
  (forall a,
      fst (Interrupt.deliver_sigint a windows) = windows /\
      trace (snd (Interrupt.deliver_sigint a windows)) =
        [Interrupt.Print (Interrupt.stopping name);
         Interrupt.Kill pid CTRL_BREAK_EVENT]) /\
  (forall answers,
      Interrupt.deliver_all answers windows =
        (windows,
         flat_map (fun _ => [Interrupt.Print (Interrupt.stopping name);
                             Interrupt.Kill pid CTRL_BREAK_EVENT]) answers)).
Proof.
  cbn zeta. unfold Interrupt.kill_on_interrupt.
  split; [reflexivity|]. split; [reflexivity|]. split; [reflexivity|].
  split; [intros e; reflexivity|].
  split; [intros [e|]; split; reflexivity|].
  split; [intros answers; apply deliver_all_terminating|].
  split; [intros [e|]; split; reflexivity|].
  intros answers; apply deliver_all_win32.
Qed.

(** C4 as stated fails: an interrupt in NORMAL does not always lead to
    TERMINATING.  When the child is already gone,
    [os.kill(pid, SIGTERM)] raises [ProcessLookupError] before SIGINT is
    re-bound; the machine is still NORMAL, and a second interrupt sends
    SIGTERM again, not SIGKILL. *)
Lemma C4_counterexample :
  let normal :=
    Interrupt.kill_on_interrupt Posix 4242 "agent"
      Interrupt.default_int_handler in
  Interrupt.state_of
    (fst (Interrupt.deliver_sigint (Some ProcessLookupError) normal))
    = Some Interrupt.NORMAL /\
  Interrupt.deliver_all [Some ProcessLookupError; Some ProcessLookupError]
    normal =
    (normal,
     [Interrupt.Print (Interrupt.stopping "agent");
      Interrupt.Kill 4242 SIGTERM;
      Interrupt.Print (Interrupt.stopping "agent");
      Interrupt.Kill 4242 SIGTERM]) /\
  ~ (forall a,
        Interrupt.state_of (fst (Interrupt.deliver_sigint a normal))
        = Some Interrupt.TERMINATING).
Proof.
  cbn zeta. split; [reflexivity|]. split; [reflexivity|].
  intros H. specialize (H (Some ProcessLookupError)). discriminate H.
Qed.


(** ** Claims about the lifecycle guard *)




(** C2. A command that is not an ordered token sequence (a single string,
    or any other non-sequence) makes both [open_process] and
    [run_process] raise the [TypeError] of the [isinstance] test at once:
    the trace is empty, so nothing was spawned. *)
Theorem C2_non_sequence_command_rejected {A : Type}
    (w : world) (command : command_value) (out err : stdio)
    (body : process -> M event A)
    (so : stream_output_value) (ts : bool) (h : option (process -> value))
    (Hc : is_ordered_token_sequence command = false) :
  open_process w command out err body =
    ([], Raise (TypeError (NotAList command))) /\
  run_process w command so ts h =
    ([], Raise (TypeError (NotAList command))).
Proof.
  destruct command; try discriminate; split; reflexivity.
Qed.

Lemma C2_witness :
  is_ordered_token_sequence (CmdStr "ls -la") = false /\
  run_process posix_world (CmdStr "ls -la") (SOBool true) true None =
    ([], Raise (TypeError (NotAList (CmdStr "ls -la")))).
Proof.
  split; [reflexivity|].
  exact (proj2 (C2_non_sequence_command_rejected (A := unit)
                  posix_world (CmdStr "ls -la") PIPE PIPE
                  (fun _ => ret tt) (SOBool true) true None eq_refl)).
Defined.

(** C8. With a list of tokens, the first thing [open_process] does is call
    the spawn primitive: on Windows with the tokens joined by single
    spaces into one string, elsewhere with the token list as it is. *)
Theorem C8_windows_joins_tokens {A : Type}
    (w : world) (tokens : list string) (out err : stdio)
    (body : process -> M event A) :
  exists rest,
    trace (open_process w (CmdList tokens) out err body) =
      Spawn (match sys_platform w with
             | Win32 => ArgString (String.concat " " tokens)
             | Posix => ArgVector tokens
             end)
            out err
            (match sys_platform w with Win32 => true | Posix => false end)
      :: rest.
Proof. apply open_process_spawns_first. Qed.

(** ** Claims about the runner *)

Section RunnerFacts.

Lemma existsb_bind {E B C} (P : E -> bool) (m : M E B) (k : B -> M E C) :
  existsb P (fst m) = false ->
  (forall b, existsb P (fst (k b)) = false) ->
  existsb P (fst (bind m k)) = false.
Proof.
  intros Hm Hk. unfold bind. destruct (snd m) as [b|e]; cbn [fst].
  - rewrite existsb_app, Hm, Hk. reflexivity.
  - exact Hm.
Qed.

Lemma existsb_call {E} (P : E -> bool) (ev : E) (a : option exn) :
  P ev = false -> existsb P (fst (call ev a)) = false.
Proof. intros H. destruct a; cbn; now rewrite H. Qed.

Lemma run_tasks_no_started (sched : list channel) :
  forall out out_end err err_end,
    existsb is_started (fst (FanOut.run_tasks sched out out_end err err_end))
    = false.
Proof.
  assert (Hmap : forall ch (t : list relay_event),
             existsb is_started (map (Relay ch) t) = false).
  { intros ch t. induction t as [|e t IH]; [reflexivity|exact IH]. }
  induction sched as [|ch sched IH]; intros out out_end err err_end.
  - cbn [FanOut.run_tasks]. apply existsb_bind; [apply Hmap|].
    intros _. apply Hmap.
  - destruct ch; cbn [FanOut.run_tasks].
    + destruct out as [|e out']; [destruct out_end|].
      * apply IH.
      * reflexivity.
      * apply existsb_bind; [reflexivity|]. intros _. apply IH.
    + destruct err as [|e err']; [destruct err_end|].
      * apply IH.
      * reflexivity.
      * apply existsb_bind; [reflexivity|]. intros _. apply IH.
Qed.

Lemma release_no_started (w : world) :
  existsb is_started (fst (release w)) = false.
Proof.
  unfold release.
  destruct (terminate_answer w) as [[]|], (sys_platform w),
    (ctrl_remove_answer w) as [[]|], (aclose_answer w); reflexivity.
Qed.

Lemma acquisition_facts (w : world) tokens out err :
  existsb is_spawn (acquisition w tokens out err ++ [Enter]) = true /\
  existsb is_started (acquisition w tokens out err ++ [Enter]) = false /\
  existsb is_relay (acquisition w tokens out err ++ [Enter]) = false.
Proof. unfold acquisition. destruct (sys_platform w); auto. Qed.

(** What is left of the body of [run_process] after the report. *)
Lemma after_report_no_started (w : world) (so : stream_output_value)
    (p : process) :
  existsb is_started
    (fst ((if truthy so then
             match so with
             | SOPair a b => consume_process_output w p a b
             | SOBool _ => raise (TypeError (NotSubscriptable "bool"))
             end
           else ret tt) ;;;
          call Wait (wait_answer w) ;;; ret p)) = false.
Proof.
  apply existsb_bind.
  - destruct so as [[|]|a b]; try reflexivity.
    cbn [truthy]. apply run_tasks_no_started.
  - intros _. apply existsb_bind; [now apply existsb_call|].
    intros _. reflexivity.
Qed.

End RunnerFacts.

(** C5, as the code has it.  With a task status supplied, [run_process]
    calls [task_status.started] exactly once when the process is held
    (the command is a list, the spawn returned and, on Windows, the
    console handler went in): the call comes after the spawn and before
    any relay operation, and its argument is
    [task_status_handler(process)], or [process.pid] when no handler was
    given.  When the process is not held (the command is not a list, the
    spawn raised, or on Windows the handler installation raised) the
    call is never made. *)
Theorem C5_status_reported_once_after_spawn
    (w : world) (command : command_value) (so : stream_output_value)
    (h : option (process -> value)) :
  let cfg := if truthy so then PIPE else DEVNULL in
  let p := spawned w cfg cfg in
  let t := trace (run_process w command so true h) in
  if isinstance_list command && acquired w then
    exists pre post,
      t = pre ++ Started (reported h p) :: post /\
      existsb is_spawn pre = true /\
      existsb is_started pre = false /\
      existsb is_relay pre = false /\
      existsb is_started post = false /\
      reported None p = VInt (child_pid w)
  else
    existsb is_started t = false.
Proof.
  cbn zeta. destruct command as [tokens|tokens|s|name]; try reflexivity.
  cbn [isinstance_list andb].
  destruct (acquired w) eqn:Hacq.
  - unfold trace, run_process.
    set (so' := match so with
                | SOBool true => SOPair sys_stdout sys_stderr
                | other => other
                end).
    assert (Hso : truthy so' = truthy so)
      by (destruct so as [[|]|]; reflexivity).
    rewrite Hso.
    set (cfg := if truthy so then PIPE else DEVNULL).
    rewrite (open_process_acquired w tokens cfg cfg _ Hacq).
    exists (acquisition w tokens cfg cfg ++ [Enter]).
    eexists.
    split.
    + rewrite <- app_assoc. cbn [app]. f_equal. f_equal.
      unfold bind at 1. cbn [emit fst snd app]. unfold reported.
      destruct h; reflexivity.
    + destruct (acquisition_facts w tokens cfg cfg) as (H1 & H2 & H3).
      repeat (split; [assumption|]).
      split; [|reflexivity].
      rewrite existsb_app. rewrite <- Hso.
      rewrite (after_report_no_started w so' (spawned w cfg cfg)).
      cbn. apply release_no_started.
  - unfold trace, run_process.
    apply open_process_not_acquired; [reflexivity|reflexivity|exact Hacq].
Qed.

Lemma C5_witness :
  acquired posix_world = true /\
  exists pre post,
    trace (run_process posix_world (CmdList ["echo"; "hello"])
             (SOBool true) true None) =
      pre ++ Started (VInt 4242) :: post /\
    existsb is_spawn pre = true /\
    existsb is_started pre = false /\
    existsb is_relay pre = false /\
    existsb is_started post = false /\
    VInt 4242 = VInt 4242.
Proof.
  split; [reflexivity|].
  exact (C5_status_reported_once_after_spawn posix_world
           (CmdList ["echo"; "hello"]) (SOBool true) None).
Defined.

(** C5 as stated fails: a supplied task status is not always reported.
    When the spawn raises there is no process and [started] is never
    called; on Windows the same holds when the spawn returned and the
    installation of the console handler raised. *)
Lemma C5_counterexample :
  let no_program :=
    {| sys_platform := Posix; child_pid := 0;
       child_stdout := []; child_stderr := [];
       spawn_answer := Some (OSError 2); ctrl_install_answer := None;
       exit_answer := None; terminate_answer := None;
       ctrl_remove_answer := None; aclose_answer := None;
       wait_answer := None; schedule := [] |} in
  let no_console :=
    {| sys_platform := Win32; child_pid := 1300;
       child_stdout := ["hello"]; child_stderr := [];
       spawn_answer := None; ctrl_install_answer := Some (OSError 6);
       exit_answer := None; terminate_answer := None;
       ctrl_remove_answer := None; aclose_answer := None;
       wait_answer := None; schedule := [] |} in
  run_process no_program (CmdList ["no-such-program"]) (SOBool true)
    true None =
    ([Spawn (ArgVector ["no-such-program"]) PIPE PIPE false],
     Raise (OSError 2)) /\
  run_process no_console (CmdList ["cmd"; "/c"; "dir"]) (SOBool true)
    true None =
    ([Spawn (ArgString "cmd /c dir") PIPE PIPE true;
      SetConsoleCtrlHandler (CtrlCHandler 1300) true],
     Raise (OSError 6)) /\
  existsb is_started
    (trace (run_process no_program (CmdList ["no-such-program"])
              (SOBool true) true None)) = false /\
  existsb is_started
    (trace (run_process no_console (CmdList ["cmd"; "/c"; "dir"])
              (SOBool true) true None)) = false.
Proof. cbn zeta. repeat split. Qed.

Section WiringFacts.

Lemma release_no_relay (w : world) :
  existsb is_relay (fst (release w)) = false.
Proof.
  unfold release.
  destruct (terminate_answer w) as [[]|], (sys_platform w),
    (ctrl_remove_answer w) as [[]|], (aclose_answer w); reflexivity.
Qed.

(** The guard itself relays nothing: relay operations in a guarded block
    come from the block. *)
Lemma open_process_no_relay {A} (w : world) (command : command_value)
    (out err : stdio) (body : process -> M event A) :
  (forall p, existsb is_relay (fst (body p)) = false) ->
  existsb is_relay (fst (open_process w command out err body)) = false.
Proof.
  intros Hbody. unfold open_process.
  destruct (negb (isinstance_list command)); [reflexivity|].
  apply existsb_bind.
  - unfold anyio_open_process.
    destruct (sys_platform w), (spawn_answer w), (ctrl_install_answer w);
      reflexivity.
  - intros p. rewrite fst_try_finally, existsb_app, release_no_relay.
    unfold async_with_process.
    rewrite existsb_bind; [reflexivity|reflexivity|].
    intros _. rewrite fst_try_finally, existsb_app, Hbody.
    destruct (exit_answer w); reflexivity.
Qed.

Lemma wiring_of_run_process (w : world) (tokens : list string)
    (so : stream_output_value) (ts : bool) (h : option (process -> value))
    (ch : channel) :
  wiring (trace (run_process w (CmdList tokens) so ts h)) ch =
    Some (if truthy so then PIPE else DEVNULL).
Proof.
  unfold run_process.
  set (so' := match so with
              | SOBool true => SOPair sys_stdout sys_stderr
              | other => other
              end).
  assert (Hso : truthy so' = truthy so) by (destruct so as [[|]|]; reflexivity).
  rewrite Hso.
  match goal with
  | |- wiring (trace (open_process _ _ ?o ?e ?b)) _ = _ =>
      destruct (open_process_spawns_first w tokens o e b) as [rest Hrest]
  end.
  rewrite Hrest. unfold wiring. cbn. destruct ch; reflexivity.
Qed.

End WiringFacts.

(** C6, as the code has it.  [run_process] wires both channels alike and
    by the truthiness of [stream_output] alone: both are piped when it is
    [True] or any pair of sinks (discard sinks included), both go to
    DEVNULL when it is [False].  So a channel with a non-discard sink is
    piped, and with a falsy [stream_output] nothing is relayed. *)
Theorem C6_piping_follows_truthiness
    (w : world) (tokens : list string) (so : stream_output_value)
    (ts : bool) (h : option (process -> value)) :
  let t := trace (run_process w (CmdList tokens) so ts h) in
  (forall ch, wiring t ch = Some (if truthy so then PIPE else DEVNULL)) /\
  (forall ch, discards (sink_of so ch) = false -> wiring t ch = Some PIPE) /\
  (truthy so = false -> existsb is_relay t = false).
Proof.
  cbn zeta. split; [|split].
  - intros ch. apply wiring_of_run_process.
  - intros ch Hd. rewrite wiring_of_run_process.
    destruct so as [[|]|a b]; [reflexivity|destruct ch; discriminate|reflexivity].
  - intros Hf. destruct so as [[|]|a b]; try discriminate.
    unfold trace, run_process. apply open_process_no_relay.
    intros p. destruct ts, (wait_answer w); reflexivity.
Qed.

Lemma C6_witness :
  discards (sink_of (SOPair (SinkTextSendStream 7) SinkNone) Stdout) = false /\
  wiring (trace (run_process posix_world (CmdList ["echo"; "hi"])
                   (SOPair (SinkTextSendStream 7) SinkNone) false None))
         Stdout = Some PIPE /\
  truthy (SOBool false) = false /\
  existsb is_relay (trace (run_process posix_world (CmdList ["echo"; "hi"])
                             (SOBool false) false None)) = false.
Proof.
  split; [reflexivity|]. split.
  - exact (proj1 (proj2 (C6_piping_follows_truthiness posix_world
             ["echo"; "hi"] (SOPair (SinkTextSendStream 7) SinkNone)
             false None)) Stdout eq_refl).
  - split; [reflexivity|].
    exact (proj2 (proj2 (C6_piping_follows_truthiness posix_world
             ["echo"; "hi"] (SOBool false) false None)) eq_refl).
Defined.

(** C6 as stated fails in its "iff": with the pair (discard, a send
    stream) the stdout channel has the discard sink and is piped all the
    same. *)
Lemma C6_counterexample :
  let so := SOPair SinkNone (SinkTextSendStream 7) in
  let t := trace (run_process posix_world (CmdList ["echo"; "hi"])
                    so false None) in
  wiring t Stdout = Some PIPE /\
  discards (sink_of so Stdout) = true /\
  ~ (forall ch, wiring t ch = Some PIPE <-> discards (sink_of so ch) = false).
Proof.
  cbn zeta. split; [reflexivity|]. split; [reflexivity|].
  intros H. destruct (H Stdout) as [H1 _].
  specialize (H1 eq_refl). discriminate H1.
Qed.

(** C7, evaluated where the code leaves the handler in place.  On Windows,
    with a child that has already exited ([process.terminate()] raises
    [ProcessLookupError]), the guard installs the console handler, the
    block ends normally, and the release path goes from [terminate]
    straight to the shielded [aclose]: no call takes the handler off. *)
Theorem C7_handler_not_removed_when_child_exited :
  let w := with_terminate (Some ProcessLookupError) win32_world in
  let m := open_process w dir_command PIPE PIPE (fun _ => ret tt) in
  trace m = [Spawn (ArgString "cmd /c dir") PIPE PIPE true;
             SetConsoleCtrlHandler (CtrlCHandler 1300) true;
             Enter; Exit_; Terminate; Aclose true] /\
  result m = Ok tt /\
  existsb is_handler_install (trace m) = true /\
  existsb is_handler_removal (trace m) = false.
Proof. cbn zeta. repeat split. Qed.

(** * Further properties of the guard *)

Section GuardOutcome.

Lemma release_outcome (w : world) :
  snd (release w) = match release_raises w with
                    | Some e => Raise e
                    | None => Ok tt
                    end.
Proof.
  unfold release, release_raises.
  destruct (terminate_answer w) as [[]|], (sys_platform w),
    (ctrl_remove_answer w) as [[]|], (aclose_answer w); reflexivity.
Qed.

Lemma snd_try_finally {E B} (m : M E B) (f : M E unit) :
  snd (try_finally m f) = match snd f with
                          | Ok _ => snd m
                          | Raise e => Raise e
                          end.
Proof. unfold try_finally. destruct (snd f); reflexivity. Qed.

Lemma acquire_ok (w : world) (tokens : list string) (out err : stdio) :
  acquired w = true ->
  match sys_platform w with
  | Win32 =>
      p <- anyio_open_process w (ArgString (String.concat " " tokens))
             out err true ;;
      call (SetConsoleCtrlHandler (CtrlCHandler (pid p)) true)
           (ctrl_install_answer w) ;;;
      ret p
  | Posix => anyio_open_process w (ArgVector tokens) out err false
  end = (acquisition w tokens out err, Ok (spawned w out err)).
Proof.
  unfold acquired, acquisition, anyio_open_process, spawned.
  destruct (spawn_answer w); [discriminate|].
  destruct (sys_platform w); [|reflexivity].
  destruct (ctrl_install_answer w); [discriminate|reflexivity].
Qed.

Lemma open_process_unspawned {B} (w : world) (tokens : list string)
    (o r : stdio) (b : process -> M event B) (e : exn) :
  spawn_answer w = Some e ->
  open_process w (CmdList tokens) o r b =
    ([Spawn (launch_argument (sys_platform w) tokens) o r
            (is_win32 (sys_platform w))], Raise e).
Proof.
  intros Hspawn. unfold open_process, anyio_open_process.
  cbn [isinstance_list negb]. rewrite Hspawn.
  destruct (sys_platform w); reflexivity.
Qed.

Lemma release_console_posix (w : world) :
  sys_platform w = Posix -> existsb is_console (fst (release w)) = false.
Proof.
  intros H. unfold release. rewrite H.
  destruct (terminate_answer w) as [[]|], (aclose_answer w); reflexivity.
Qed.

Lemma open_process_result {A : Type}
    (w : world) (tokens : list string) (out err : stdio)
    (body : process -> M event A)
    (Hacq : acquired w = true) :
  result (open_process w (CmdList tokens) out err body) =
    match release_raises w with
    | Some e => Raise e
    | None =>
        match exit_answer w with
        | Some e => Raise e
        | None => result (body (spawned w out err))
        end
    end.
Proof.
  unfold result, open_process. cbn [isinstance_list negb].
  rewrite (acquire_ok w tokens out err Hacq).
  unfold bind at 1. cbn [fst snd].
  rewrite snd_try_finally, release_outcome.
  destruct (release_raises w); [reflexivity|].
  unfold async_with_process. unfold bind. cbn [emit fst snd].
  rewrite snd_try_finally.
  destruct (exit_answer w); reflexivity.
Qed.

End GuardOutcome.

(** When the spawn primitive raises, the guard raises the same exception
    after the one spawn attempt: the guarded block never runs and nothing
    is terminated or closed; [run_process] likewise reports nothing and
    waits for nothing. *)
Theorem open_process_spawn_failure {A : Type}
    (w : world) (tokens : list string) (out err : stdio)
    (body : process -> M event A)
    (so : stream_output_value) (ts : bool) (h : option (process -> value))
    (e : exn) (Hspawn : spawn_answer w = Some e) :
  open_process w (CmdList tokens) out err body =
    ([Spawn (launch_argument (sys_platform w) tokens) out err
            (is_win32 (sys_platform w))], Raise e) /\
  run_process w (CmdList tokens) so ts h =
    ([Spawn (launch_argument (sys_platform w) tokens)
            (if truthy so then PIPE else DEVNULL)
            (if truthy so then PIPE else DEVNULL)
            (is_win32 (sys_platform w))], Raise e).
Proof.
  split; [now apply open_process_unspawned|].
  unfold run_process. rewrite (open_process_unspawned _ _ _ _ _ e Hspawn).
  destruct so as [[|]|a b]; reflexivity.
Qed.

Lemma open_process_spawn_failure_witness :
  run_process
    {| sys_platform := Posix; child_pid := 0;
       child_stdout := []; child_stderr := [];
       spawn_answer := Some (OSError 2); ctrl_install_answer := None;
       exit_answer := None; terminate_answer := None;
       ctrl_remove_answer := None; aclose_answer := None;
       wait_answer := None; schedule := [] |}
    (CmdList ["no-such-program"]) (SOBool true) true None =
    ([Spawn (ArgVector ["no-such-program"]) PIPE PIPE false],
     Raise (OSError 2)).
Proof.
  exact (proj2 (open_process_spawn_failure (A := unit)
    {| sys_platform := Posix; child_pid := 0;
       child_stdout := []; child_stderr := [];
       spawn_answer := Some (OSError 2); ctrl_install_answer := None;
       exit_answer := None; terminate_answer := None;
       ctrl_remove_answer := None; aclose_answer := None;
       wait_answer := None; schedule := [] |}
    ["no-such-program"] PIPE PIPE (fun _ => ret tt)
    (SOBool true) true None (OSError 2) eq_refl)).
Defined.

(** How a guarded block ends, once the process is held.  An exception of
    the release path (from [terminate] unless it is [ProcessLookupError],
    on Windows from the handler removal likewise, else from the shielded
    [aclose]) wins over everything; otherwise an exception of
    [process.__aexit__] wins; otherwise the block's own outcome, value or
    exception, comes out unchanged.  In particular a
    [ProcessLookupError] of [terminate] is never surfaced. *)
Theorem open_process_outcome {A : Type}
    (w : world) (tokens : list string) (out err : stdio)
    (body : process -> M event A)
    (Hacq : acquired w = true) :
  result (open_process w (CmdList tokens) out err body) =
    match release_raises w with
    | Some e => Raise e
    | None =>
        match exit_answer w with
        | Some e => Raise e
        | None => result (body (spawned w out err))
        end
    end.
Proof. now apply open_process_result. Qed.

Lemma open_process_outcome_witness :
  acquired (with_terminate (Some ProcessLookupError) posix_world) = true /\
  result (open_process (with_terminate (Some ProcessLookupError) posix_world)
            sleep_60 PIPE PIPE
            (fun _ => ([Body 1], Raise (UserError "boom") : outcome unit)))
  = Raise (UserError "boom").
Proof.
  split; [reflexivity|].
  exact (open_process_outcome
           (with_terminate (Some ProcessLookupError) posix_world)
           ["sleep"; "60"] PIPE PIPE
           (fun _ => ([Body 1], Raise (UserError "boom") : outcome unit))
           eq_refl).
Defined.

(** Off Windows the guard never touches the console handlers: whatever the
    world answers, a [SetConsoleCtrlHandler] call in the trace can only
    come from the guarded block itself. *)
Theorem open_process_posix_no_console_handler {A : Type}
    (w : world) (tokens : list string) (out err : stdio)
    (body : process -> M event A)
    (Hposix : sys_platform w = Posix) :
  existsb is_console (trace (open_process w (CmdList tokens) out err body)) =
    match spawn_answer w with
    | None => existsb is_console (trace (body (spawned w out err)))
    | Some _ => false
    end.
Proof.
  unfold trace. destruct (spawn_answer w) as [e|] eqn:Hs.
  - rewrite (open_process_unspawned w tokens out err body e Hs).
    reflexivity.
  - assert (Hacq : acquired w = true).
    { unfold acquired. rewrite Hs, Hposix. reflexivity. }
    rewrite (open_process_acquired w tokens out err body Hacq).
    unfold acquisition. rewrite Hposix. cbn [app existsb is_console orb].
    rewrite existsb_app. cbn [existsb is_console orb].
    rewrite (release_console_posix w Hposix). apply orb_false_r.
Qed.

Lemma open_process_posix_no_console_handler_witness :
  sys_platform posix_world = Posix /\
  existsb is_console
    (trace (open_process posix_world sleep_60 PIPE PIPE
              (fun _ => ([Body 0], Ok tt)))) = false.
Proof.
  split; [reflexivity|].
  exact (open_process_posix_no_console_handler posix_world ["sleep"; "60"]
           PIPE PIPE (fun _ => ([Body 0], Ok tt)) eq_refl).
Defined.

(** On Windows, once the process is held, the handler installed is the one
    for the child just spawned (invoked, it sends CTRL_BREAK_EVENT to the
    child's pid and, if that call returns, answers [False]); and the
    release path calls [SetConsoleCtrlHandler(_, False)] exactly when
    [process.terminate()] returned normally, passing it the value the
    installing call had returned. *)
Theorem open_process_win32_console_handler {A : Type}
    (w : world) (tokens : list string) (out err : stdio)
    (body : process -> M event A)
    (Hwin : sys_platform w = Win32)
    (Hacq : acquired w = true) :
  exists rel,
    trace (open_process w (CmdList tokens) out err body) =
      Spawn (ArgString (String.concat " " tokens)) out err true ::
      SetConsoleCtrlHandler (CtrlCHandler (child_pid w)) true ::
      Enter :: trace (body (spawned w out err)) ++ Exit_ :: Terminate :: rel /\
    filter is_console rel =
      match terminate_answer w with
      | None => [SetConsoleCtrlHandler InstallResult false]
      | Some _ => []
      end /\
    forall os_kill,
      trace (ctrl_c_handler (spawned w out err) os_kill) =
        [Interrupt.Kill (child_pid w) CTRL_BREAK_EVENT] /\
      result (ctrl_c_handler (spawned w out err) os_kill) =
        match os_kill with
        | None => Ok false
        | Some e => Raise e
        end.
Proof.
  unfold trace, result.
  rewrite (open_process_acquired w tokens out err body Hacq).
  unfold acquisition, release, launch_argument, is_win32. rewrite Hwin.
  cbn [app].
  destruct (terminate_answer w) as [e|].
  - exists (match e with
            | ProcessLookupError => [Aclose true]
            | _ => []
            end).
    split; [|split].
    + destruct e, (aclose_answer w); reflexivity.
    + destruct e; reflexivity.
    + intros [k|]; split; reflexivity.
  - exists (SetConsoleCtrlHandler InstallResult false ::
            match ctrl_remove_answer w with
            | None | Some ProcessLookupError => [Aclose true]
            | Some _ => []
            end).
    split; [|split].
    + destruct (ctrl_remove_answer w) as [[]|], (aclose_answer w);
        reflexivity.
    + destruct (ctrl_remove_answer w) as [[]|]; reflexivity.
    + intros [k|]; split; reflexivity.
Qed.

Lemma open_process_win32_console_handler_witness :
  sys_platform win32_world = Win32 /\
  acquired win32_world = true /\
  exists rel,
    trace (open_process win32_world dir_command PIPE PIPE (fun _ => ret tt)) =
      [Spawn (ArgString "cmd /c dir") PIPE PIPE true;
       SetConsoleCtrlHandler (CtrlCHandler 1300) true;
       Enter; Exit_; Terminate] ++ rel /\
    filter is_console rel = [SetConsoleCtrlHandler InstallResult false].
Proof.
  split; [reflexivity|]. split; [reflexivity|].
  destruct (open_process_win32_console_handler win32_world
              ["cmd"; "/c"; "dir"] PIPE PIPE
              (fun _ => ret tt : M event unit) eq_refl eq_refl)
    as (rel & Ht & Hf & _).
  exists rel. split; [exact Ht|exact Hf].
Defined.

(** * Further properties of the fan-out *)

Section FanOutFacts.

Lemma is_prefix_nil {X} (l : list X) : is_prefix [] l.
Proof. exists l. reflexivity. Qed.

Lemma is_prefix_refl {X} (l : list X) : is_prefix l l.
Proof. exists []. now rewrite app_nil_r. Qed.

Lemma is_prefix_cons {X} (x : X) (p l : list X) :
  is_prefix p l -> is_prefix (x :: p) (x :: l).
Proof. intros [rest ->]. exists rest. reflexivity. Qed.

Lemma fst_bind_emit {E B} (ev : E) (k : unit -> M E B) :
  fst (bind (emit ev) k) = ev :: fst (k tt).
Proof. reflexivity. Qed.

Lemma snd_bind_emit {E B} (ev : E) (k : unit -> M E B) :
  snd (bind (emit ev) k) = snd (k tt).
Proof. reflexivity. Qed.

(** In any interleaving, failed or not, a task's operations are an initial
    part of what it would do alone. *)
Lemma run_tasks_prefix (sched : list channel) :
  forall out out_end err err_end,
    let m := FanOut.run_tasks sched out out_end err err_end in
    is_prefix (FanOut.on_channel Stdout (fst m)) out /\
    is_prefix (FanOut.on_channel Stderr (fst m)) err.
Proof.
  induction sched as [|ch sched IH]; intros out out_end err err_end.
  - cbn [FanOut.run_tasks]. unfold bind. cbn [fst snd].
    destruct out_end as [u|ex]; cbn [fst].
    + rewrite !on_channel_app, !on_channel_same.
      rewrite !on_channel_other by reflexivity.
      rewrite app_nil_r. split; apply is_prefix_refl.
    + rewrite on_channel_same, on_channel_other by reflexivity.
      split; [apply is_prefix_refl|apply is_prefix_nil].
  - destruct ch; cbn [FanOut.run_tasks].
    + destruct out as [|e out']; [destruct out_end|].
      * apply IH.
      * split; apply is_prefix_nil.
      * rewrite fst_bind_emit.
        destruct (IH out' out_end err err_end) as [H1 H2].
        split; [apply is_prefix_cons; exact H1|exact H2].
    + destruct err as [|e err']; [destruct err_end|].
      * apply IH.
      * split; apply is_prefix_nil.
      * rewrite fst_bind_emit.
        destruct (IH out out_end err' err_end) as [H1 H2].
        split; [exact H1|apply is_prefix_cons; exact H2].
Qed.

(** The group fails exactly when a task fails, and then with the
    exception of a failed task. *)
Lemma run_tasks_fails (sched : list channel) :
  forall out out_end err err_end,
    let m := FanOut.run_tasks sched out out_end err err_end in
    fails (snd m) = fails out_end || fails err_end /\
    match snd m with
    | Ok _ => True
    | Raise e => out_end = Raise e \/ err_end = Raise e
    end.
Proof.
  induction sched as [|ch sched IH]; intros out out_end err err_end.
  - cbn [FanOut.run_tasks]. unfold bind. cbn [fst snd].
    destruct out_end as [u|ex], err_end as [u'|ex']; cbn; auto.
  - destruct ch; cbn [FanOut.run_tasks].
    + destruct out as [|e out']; [destruct out_end as [u|ex]|].
      * apply IH.
      * cbn. auto.
      * rewrite snd_bind_emit. apply IH.
    + destruct err as [|e err']; [destruct err_end as [u|ex]|].
      * apply IH.
      * cbn. split; [symmetry; apply orb_true_r|auto].
      * rewrite snd_bind_emit. apply IH.
Qed.

(** A task group performs relay operations only. *)
Lemma run_tasks_only_relays (P : event -> bool)
    (HP : forall ch e, P (Relay ch e) = false) (sched : list channel) :
  forall out out_end err err_end,
    existsb P (fst (FanOut.run_tasks sched out out_end err err_end)) = false.
Proof.
  assert (Hmap : forall ch (t : list relay_event),
             existsb P (map (Relay ch) t) = false).
  { intros ch t. induction t as [|e t IH]; [reflexivity|].
    cbn. now rewrite HP. }
  induction sched as [|ch sched IH]; intros out out_end err err_end.
  - cbn [FanOut.run_tasks]. apply existsb_bind; [apply Hmap|].
    intros _. apply Hmap.
  - destruct ch; cbn [FanOut.run_tasks].
    + destruct out as [|e out']; [destruct out_end|].
      * apply IH.
      * reflexivity.
      * rewrite fst_bind_emit. cbn. rewrite HP. apply IH.
    + destruct err as [|e err']; [destruct err_end|].
      * apply IH.
      * reflexivity.
      * rewrite fst_bind_emit. cbn. rewrite HP. apply IH.
Qed.

End FanOutFacts.

(** The two relays fail together.  For every pair of sinks and every
    interleaving, [consume_process_output] raises exactly when one of the
    two relays would raise on its own, and then with the exception of one
    of them; and whether it fails or not, what reached each channel's
    sink is an initial part, in order and without repeats, of what that
    relay does alone. *)
Theorem consume_process_output_fails_together
    (w : world) (p : process) (a b : sink) :
  let m := consume_process_output w p a b in
  let out := Relay.stream_text (stdout p) a in
  let err := Relay.stream_text (stderr p) b in
  fails (result m) = fails (result out) || fails (result err) /\
  match result m with
  | Ok _ => True
  | Raise e => result out = Raise e \/ result err = Raise e
  end /\
  is_prefix (FanOut.on_channel Stdout (trace m)) (trace out) /\
  is_prefix (FanOut.on_channel Stderr (trace m)) (trace err).
Proof.
  cbn zeta. unfold consume_process_output, result, trace.
  destruct (run_tasks_fails (schedule w)
              (fst (Relay.stream_text (stdout p) a))
              (snd (Relay.stream_text (stdout p) a))
              (fst (Relay.stream_text (stderr p) b))
              (snd (Relay.stream_text (stderr p) b))) as [Hf He].
  destruct (run_tasks_prefix (schedule w)
              (fst (Relay.stream_text (stdout p) a))
              (snd (Relay.stream_text (stdout p) a))
              (fst (Relay.stream_text (stderr p) b))
              (snd (Relay.stream_text (stderr p) b))) as [H1 H2].
  repeat split; assumption.
Qed.

(** * Further properties of the runner *)

Section RunnerShape.

Lemma existsb_guard_events (P : event -> bool) (l : list event) :
  (forall e, guard_event e = true -> P e = false) ->
  forallb guard_event l = true -> existsb P l = false.
Proof.
  intros HP. induction l as [|e l IH]; [reflexivity|].
  cbn. intros H. apply andb_true_iff in H as [He Hl].
  now rewrite (HP e He), (IH Hl).
Qed.

Lemma release_guard_events (w : world) :
  forallb guard_event (fst (release w)) = true.
Proof.
  unfold release.
  destruct (terminate_answer w) as [[]|], (sys_platform w),
    (ctrl_remove_answer w) as [[]|], (aclose_answer w); reflexivity.
Qed.

(** The guard adds only its own operations to those of the block. *)
Lemma open_process_adds_guard_events {A} (P : event -> bool)
    (w : world) (command : command_value) (out err : stdio)
    (body : process -> M event A) :
  (forall e, guard_event e = true -> P e = false) ->
  (forall p, existsb P (fst (body p)) = false) ->
  existsb P (fst (open_process w command out err body)) = false.
Proof.
  intros HP Hbody. unfold open_process.
  destruct (negb (isinstance_list command)); [reflexivity|].
  apply existsb_bind.
  - apply existsb_guard_events; [exact HP|].
    unfold anyio_open_process.
    destruct (sys_platform w), (spawn_answer w), (ctrl_install_answer w);
      reflexivity.
  - intros p. rewrite fst_try_finally, existsb_app.
    rewrite (existsb_guard_events P _ HP (release_guard_events w)).
    unfold async_with_process. rewrite fst_bind_emit.
    rewrite fst_try_finally. cbn [existsb].
    rewrite (HP Enter eq_refl), existsb_app, Hbody.
    destruct (exit_answer w); cbn; now rewrite (HP Exit_ eq_refl).
Qed.

(** A streaming body whose sinks are supported relays and ends normally. *)
Lemma consume_supported (w : world) (p : process) (a b : sink) :
  recognized a && recognized b = true ->
  snd (consume_process_output w p a b) = Ok tt.
Proof.
  intros H. apply andb_true_iff in H as [Ha Hb].
  unfold consume_process_output.
  rewrite (stream_text_relayed (stdout p) a Ha).
  rewrite (stream_text_relayed (stderr p) b Hb).
  apply run_tasks_ok.
Qed.

End RunnerShape.

Section RunnerLaws.

Lemma run_process_guarded (w : world) (command : command_value)
    (so : stream_output_value) (ts : bool) (h : option (process -> value)) :
  run_process w command so ts h =
    open_process w command
      (if truthy so then PIPE else DEVNULL)
      (if truthy so then PIPE else DEVNULL)
      (run_body w so ts h).
Proof.
  unfold run_process, run_body, relaying, normalized, reported.
  destruct so as [[|]|a b], h, ts; reflexivity.
Qed.

Lemma relaying_supported (w : world) (so : stream_output_value) (p : process) :
  relays_supported so = true ->
  snd (relaying w (normalized so) p) = Ok tt.
Proof.
  intros H. destruct so as [[|]|a b]; cbn.
  - now apply consume_supported.
  - reflexivity.
  - now apply consume_supported.
Qed.

Lemma relaying_only_relays (P : event -> bool)
    (HP : forall ch e, P (Relay ch e) = false)
    (w : world) (so : stream_output_value) (p : process) :
  existsb P (fst (relaying w so p)) = false.
Proof.
  destruct so as [[|]|a b]; try reflexivity.
  cbn. now apply run_tasks_only_relays.
Qed.

Lemma relaying_all_relays (w : world) (so : stream_output_value) (p : process) :
  forallb is_relay (fst (relaying w so p)) = true.
Proof.
  assert (H : existsb (fun e => negb (is_relay e)) (fst (relaying w so p))
              = false).
  { apply relaying_only_relays. reflexivity. }
  induction (fst (relaying w so p)) as [|e l IH]; [reflexivity|].
  cbn in H |- *. apply orb_false_iff in H as [He Hl].
  apply negb_false_iff in He. now rewrite He, IH.
Qed.

(** The body of a run whose relays end normally. *)
Lemma run_body_supported (w : world) (so : stream_output_value) (ts : bool)
    (h : option (process -> value)) (p : process) :
  relays_supported so = true ->
  fst (run_body w so ts h p) =
    (if ts then [Started (reported h p)] else []) ++
    fst (relaying w (normalized so) p) ++ [Wait] /\
  snd (run_body w so ts h p) =
    match wait_answer w with
    | Some e => Raise e
    | None => Ok p
    end.
Proof.
  intros H. unfold run_body.
  pose proof (relaying_supported w so p H) as Hr.
  destruct ts; unfold bind; cbn [emit ret fst snd]; rewrite Hr;
    cbn [fst snd]; destruct (wait_answer w); cbn;
    rewrite ?app_nil_r; auto.
Qed.

End RunnerLaws.

(** How a run ends once the process is held and the sinks are of
    supported kinds: [run_process] returns the handle of the spawned
    child, unless [process.wait()], [process.__aexit__] or the release
    path raised; of several exceptions the release path's wins, then the
    exit's, then the wait's. *)
Theorem run_process_outcome
    (w : world) (tokens : list string) (so : stream_output_value)
    (ts : bool) (h : option (process -> value))
    (Hacq : acquired w = true)
    (Hso : relays_supported so = true) :
  let cfg := if truthy so then PIPE else DEVNULL in
  result (run_process w (CmdList tokens) so ts h) =
    match release_raises w with
    | Some e => Raise e
    | None =>
        match exit_answer w with
        | Some e => Raise e
        | None =>
            match wait_answer w with
            | Some e => Raise e
            | None => Ok (spawned w cfg cfg)
            end
        end
    end.
Proof.
  cbn zeta. rewrite run_process_guarded.
  rewrite (open_process_result w tokens _ _ _ Hacq).
  unfold result.
  rewrite (proj2 (run_body_supported w so ts h _ Hso)).
  reflexivity.
Qed.

Lemma run_process_outcome_witness :
  acquired posix_world = true /\
  relays_supported (SOBool true) = true /\
  result (run_process posix_world (CmdList ["echo"; "hello"])
            (SOBool true) true None) =
    Ok {| pid := 4242; stdout := ["hello"; "world"]; stderr := ["oops"] |}.
Proof.
  split; [reflexivity|]. split; [reflexivity|].
  exact (run_process_outcome posix_world ["echo"; "hello"] (SOBool true)
           true None eq_refl eq_refl).
Defined.

(** Order of a run once the process is held and the sinks are of
    supported kinds: [process.wait()] is called once, after every relay
    operation and before the handle is exited and released; nothing is
    terminated before the wait and nothing is relayed after it. *)
Theorem run_process_waits_after_relaying
    (w : world) (tokens : list string) (so : stream_output_value)
    (ts : bool) (h : option (process -> value))
    (Hacq : acquired w = true)
    (Hso : relays_supported so = true) :
  exists pre post,
    trace (run_process w (CmdList tokens) so ts h) = pre ++ Wait :: post /\
    existsb is_wait pre = false /\
    existsb is_terminate pre = false /\
    existsb is_wait post = false /\
    existsb is_relay post = false /\
    existsb is_terminate post = true.
Proof.
  unfold trace. rewrite run_process_guarded.
  rewrite (open_process_acquired w tokens _ _ _ Hacq).
  rewrite (proj1 (run_body_supported w so ts h _ Hso)).
  set (cfg := if truthy so then PIPE else DEVNULL).
  set (p := spawned w cfg cfg).
  exists (acquisition w tokens cfg cfg ++ Enter ::
          (if ts then [Started (reported h p)] else []) ++
          fst (relaying w (normalized so) p)),
         (Exit_ :: fst (release w)).
  assert (Hacqn : forall P,
            (forall a o e g, P (Spawn a o e g) = false) ->
            (forall c b, P (SetConsoleCtrlHandler c b) = false) ->
            existsb P (acquisition w tokens cfg cfg) = false).
  { intros P H2 H3. unfold acquisition.
    destruct (sys_platform w); cbn; now rewrite ?H2, ?H3. }
  split; [|split; [|split; [|split; [|split]]]].
  - rewrite <- !app_assoc. cbn [app]. rewrite <- !app_assoc. reflexivity.
  - rewrite existsb_app, Hacqn by reflexivity.
    cbn [existsb orb is_wait is_terminate]. rewrite existsb_app.
    rewrite relaying_only_relays by reflexivity.
    destruct ts; reflexivity.
  - rewrite existsb_app, Hacqn by reflexivity.
    cbn [existsb orb is_wait is_terminate]. rewrite existsb_app.
    rewrite relaying_only_relays by reflexivity.
    destruct ts; reflexivity.
  - cbn [existsb is_wait orb].
    apply existsb_guard_events; [|apply release_guard_events].
    intros [] He; try discriminate He; reflexivity.
  - cbn [existsb is_relay orb].
    apply existsb_guard_events; [|apply release_guard_events].
    intros [] He; try discriminate He; reflexivity.
  - cbn [existsb is_terminate orb]. unfold release.
    destruct (terminate_answer w) as [[]|], (sys_platform w),
      (ctrl_remove_answer w) as [[]|], (aclose_answer w); reflexivity.
Qed.

Lemma run_process_waits_after_relaying_witness :
  acquired posix_world = true /\
  relays_supported (SOPair (SinkTextSendStream 7) SinkNone) = true /\
  exists pre post,
    trace (run_process posix_world (CmdList ["echo"; "hello"])
             (SOPair (SinkTextSendStream 7) SinkNone) false None) =
      pre ++ Wait :: post /\
    existsb is_wait pre = false /\
    existsb is_terminate pre = false /\
    existsb is_wait post = false /\
    existsb is_relay post = false /\
    existsb is_terminate post = true.
Proof.
  split; [reflexivity|]. split; [reflexivity|].
  exact (run_process_waits_after_relaying posix_world ["echo"; "hello"]
           (SOPair (SinkTextSendStream 7) SinkNone) false None
           eq_refl eq_refl).
Defined.

Section RunnerFailure.

Lemma consume_unsupported_stdout (w : world) (p : process)
    (name : string) (b : sink) (c : string) (cs : list string) :
  stdout p = c :: cs -> recognized b = true ->
  snd (consume_process_output w p (SinkOther name) b) =
    Raise (TypeError (UnsupportedSink name)).
Proof.
  intros Hout Hb. unfold consume_process_output.
  rewrite Hout, (stream_text_relayed (stderr p) b Hb).
  change (Relay.stream_text (c :: cs) (SinkOther name))
    with ([Item c], Raise (TypeError (UnsupportedSink name)) : outcome unit).
  cbn [fst snd].
  destruct (run_tasks_fails (schedule w) [Item c]
              (Raise (TypeError (UnsupportedSink name)))
              (relayed b (stderr p)) (Ok tt)) as [Hf He].
  destruct (snd (FanOut.run_tasks _ _ _ _ _)) as [u|e].
  - discriminate Hf.
  - destruct He as [He|He]; [now inversion He|discriminate He].
Qed.

End RunnerFailure.

(** A relay failure cuts the run short but not the release.  With the
    process held, a stdout sink of no supported kind, a supported stderr
    sink and a child that writes at least one stdout chunk:
    [process.wait()] is never called, [process.terminate()] is, and the
    run ends with the relay's [TypeError] unless the exit or the release
    path raised. *)
Theorem run_process_unsupported_sink
    (w : world) (tokens : list string) (name : string) (b : sink)
    (ts : bool) (h : option (process -> value))
    (c : string) (cs : list string)
    (Hacq : acquired w = true)
    (Hb : recognized b = true)
    (Hout : child_stdout w = c :: cs) :
  let m := run_process w (CmdList tokens) (SOPair (SinkOther name) b) ts h in
  existsb is_wait (trace m) = false /\
  existsb is_terminate (trace m) = true /\
  result m =
    match release_raises w with
    | Some e => Raise e
    | None =>
        match exit_answer w with
        | Some e => Raise e
        | None => Raise (TypeError (UnsupportedSink name))
        end
    end.
Proof.
  cbn zeta. rewrite run_process_guarded. cbn [truthy].
  rewrite (open_process_result w tokens _ _ _ Hacq).
  unfold trace. rewrite (open_process_acquired w tokens _ _ _ Hacq).
  pose proof (consume_unsupported_stdout w (spawned w PIPE PIPE) name b c cs
                Hout Hb) as Hc.
  assert (Hbody :
    fst (run_body w (SOPair (SinkOther name) b) ts h (spawned w PIPE PIPE)) =
      (if ts then [Started (reported h (spawned w PIPE PIPE))] else []) ++
      fst (relaying w (SOPair (SinkOther name) b) (spawned w PIPE PIPE)) /\
    snd (run_body w (SOPair (SinkOther name) b) ts h (spawned w PIPE PIPE)) =
      Raise (TypeError (UnsupportedSink name))).
  { unfold run_body, normalized, relaying. cbn [truthy].
    destruct ts; unfold bind; cbn [emit ret fst snd]; rewrite Hc;
      cbn [fst snd]; auto. }
  destruct Hbody as [Ht Hr]. unfold result. rewrite Ht, Hr.
  split; [|split; [|reflexivity]].
  - rewrite existsb_app. cbn [existsb is_wait orb].
    rewrite !existsb_app. cbn [existsb is_wait orb].
    rewrite relaying_only_relays by reflexivity.
    rewrite (existsb_guard_events is_wait (fst (release w)));
      [|intros [] He; try discriminate He; reflexivity
       |apply release_guard_events].
    unfold acquisition.
    destruct (sys_platform w), ts; reflexivity.
  - rewrite existsb_app. apply orb_true_iff. right.
    cbn [existsb is_terminate orb]. rewrite existsb_app.
    apply orb_true_iff. right. cbn [existsb is_terminate orb].
    unfold release.
    destruct (terminate_answer w) as [[]|], (sys_platform w),
      (ctrl_remove_answer w) as [[]|], (aclose_answer w); reflexivity.
Qed.

Lemma run_process_unsupported_sink_witness :
  acquired posix_world = true /\
  recognized SinkNone = true /\
  child_stdout posix_world = "hello" :: ["world"] /\
  result (run_process posix_world (CmdList ["echo"; "hello"])
            (SOPair (SinkOther "BytesIO") SinkNone) true None) =
    Raise (TypeError (UnsupportedSink "BytesIO")).
Proof.
  split; [reflexivity|]. split; [reflexivity|]. split; [reflexivity|].
  exact (proj2 (proj2 (run_process_unsupported_sink posix_world
           ["echo"; "hello"] "BytesIO" SinkNone true None "hello" ["world"]
           eq_refl eq_refl eq_refl))).
Defined.

(** Without a task status nothing is ever reported: for every world,
    command, [stream_output] and handler, the trace of [run_process] has
    no call of [task_status.started]; a handler given without a task
    status is ignored. *)
Theorem run_process_reports_nothing_without_status
    (w : world) (command : command_value) (so : stream_output_value)
    (h : option (process -> value)) :
  existsb is_started (trace (run_process w command so false h)) = false.
Proof.
  unfold trace. rewrite run_process_guarded.
  apply open_process_adds_guard_events.
  - intros [] He; try discriminate He; reflexivity.
  - intros p. unfold run_body.
    apply existsb_bind; [reflexivity|]. intros _.
    apply existsb_bind; [now apply relaying_only_relays|]. intros _.
    apply existsb_bind; [now apply existsb_call|]. intros _. reflexivity.
Qed.

(** * Further properties of the relay *)

Section RelayLaws.

Lemma bind_ret_l {E B} (k : unit -> M E B) : bind (ret tt) k = k tt.
Proof. unfold bind, ret. cbn. now destruct (k tt). Qed.

Lemma bind_assoc {E B C D} (m : M E B) (k : B -> M E C) (k' : C -> M E D) :
  bind (bind m k) k' = bind m (fun b => bind (k b) k').
Proof.
  unfold bind. destruct m as [t [b|e]]; cbn [fst snd]; [|reflexivity].
  destruct (k b) as [t' [c|e]]; cbn [fst snd]; [|reflexivity].
  now rewrite app_assoc.
Qed.

Lemma for_each_app (xs ys : list string) (s : sink) :
  Relay.for_each (xs ++ ys) s =
    Relay.for_each xs s ;;; Relay.for_each ys s.
Proof.
  induction xs as [|x xs IH].
  - cbn [app Relay.for_each]. now rewrite bind_ret_l.
  - cbn [app Relay.for_each]. rewrite IH, !bind_assoc. reflexivity.
Qed.

End RelayLaws.

(** Relaying is chunk by chunk and keeps no state between chunks: for
    every sink, relaying a source that yields [xs] and then [ys] is
    relaying [xs] and, if that ended normally, relaying [ys]; once a
    chunk has failed nothing further is pulled. *)
Theorem stream_text_app (xs ys : list string) (s : sink) :
  Relay.stream_text (xs ++ ys) s =
    Relay.stream_text xs s ;;; Relay.stream_text ys s.
Proof. unfold Relay.stream_text. apply for_each_app. Qed.

(** * Further properties of interrupt escalation *)

Section InterruptLaws.

Import Interrupt.

Lemma deliver_all_app (xs ys : list (option exn)) (h : handler) :
  deliver_all (xs ++ ys) h =
    (fst (deliver_all ys (fst (deliver_all xs h))),
     snd (deliver_all xs h) ++ snd (deliver_all ys (fst (deliver_all xs h)))).
Proof.
  revert h. induction xs as [|a xs IH]; intros h.
  - cbn. now destruct (deliver_all ys h).
  - cbn [app deliver_all].
    destruct (deliver_sigint a h) as [h1 m].
    rewrite IH. destruct (deliver_all xs h1) as [h2 t]. cbn [fst snd].
    destruct (deliver_all ys h2) as [h3 t']. cbn [fst snd].
    now rewrite app_assoc.
Qed.

Lemma deliver_all_failures (errs : list exn) pid name :
  deliver_all (map Some errs) (stop_process Posix pid name) =
    (stop_process Posix pid name,
     flat_map (fun _ => stop_events pid name) errs).
Proof.
  induction errs as [|e errs IH]; [reflexivity|].
  cbn [map deliver_all deliver_sigint]. cbn. rewrite IH. reflexivity.
Qed.

Lemma deliver_all_concerns (answers : list (option exn)) :
  forall h pid name,
    (exists plat, h = stop_process plat pid name) \/ h = kill_process pid name ->
    ((exists plat, fst (deliver_all answers h) = stop_process plat pid name) \/
     fst (deliver_all answers h) = kill_process pid name) /\
    Forall (concerns pid name) (snd (deliver_all answers h)).
Proof.
  induction answers as [|a rest IH]; intros h pid name Hh.
  - cbn. split; [exact Hh|constructor].
  - cbn [deliver_all].
    assert (Hstep :
      ((exists plat, fst (deliver_sigint a h) = stop_process plat pid name) \/
       fst (deliver_sigint a h) = kill_process pid name) /\
      Forall (concerns pid name) (fst (snd (deliver_sigint a h)))).
    { destruct Hh as [[plat ->]| ->]; [destruct plat, a|destruct a]; cbn;
        (split;
         [first [left; eexists; reflexivity | right; reflexivity]
         |repeat (apply Forall_cons || apply Forall_nil);
          cbn [concerns]; auto]). }
    destruct (deliver_sigint a h) as [h1 m]. cbn [fst snd] in Hstep.
    destruct Hstep as [Hh1 Hm].
    destruct (IH h1 pid name Hh1) as [Hh2 Ht].
    destruct (deliver_all rest h1) as [h2 t]. cbn [fst snd] in *.
    split; [exact Hh2|]. apply Forall_app. split; assumption.
Qed.

End InterruptLaws.

(** After [kill_on_interrupt(pid, name, print_fn)], however many
    interrupts arrive and whatever [os.kill] answers: every signal sent
    goes to [pid], every line printed is the "Stopping" or the "Killing"
    line of [name], and SIGINT stays bound to one of the two closures of
    this call; the disposition found at installation is never called and
    never put back. *)
Theorem kill_on_interrupt_owns_sigint
    (plat : platform) (pid : Z) (name : string)
    (prior : Interrupt.handler) (answers : list (option exn)) :
  let run := Interrupt.deliver_all answers
               (Interrupt.kill_on_interrupt plat pid name prior) in
  (fst run = Interrupt.stop_process plat pid name \/
   fst run = Interrupt.kill_process pid name) /\
  Forall (concerns pid name) (snd run).
Proof.
  cbn zeta. unfold Interrupt.kill_on_interrupt.
  assert (Hplat : forall answers h,
    h = Interrupt.stop_process plat pid name \/
    h = Interrupt.kill_process pid name ->
    fst (Interrupt.deliver_all answers h) = Interrupt.stop_process plat pid name \/
    fst (Interrupt.deliver_all answers h) = Interrupt.kill_process pid name).
  { clear answers. intros answers.
    induction answers as [|a rest IH]; intros h Hh; [exact Hh|].
    cbn [Interrupt.deliver_all].
    assert (H1 : fst (Interrupt.deliver_sigint a h) =
                   Interrupt.stop_process plat pid name \/
                 fst (Interrupt.deliver_sigint a h) =
                   Interrupt.kill_process pid name).
    { destruct Hh as [-> | ->]; [destruct plat, a|destruct a]; cbn; auto. }
    destruct (Interrupt.deliver_sigint a h) as [h1 m]. cbn [fst] in H1.
    specialize (IH h1 H1).
    destruct (Interrupt.deliver_all rest h1) as [h2 t]. exact IH. }
  split.
  - apply Hplat. now left.
  - apply deliver_all_concerns. left. now exists plat.
Qed.

(** Off Windows the escalation is by the first SIGTERM that goes
    through.  Interrupts whose [os.kill(pid, SIGTERM)] raises each print
    "Stopping" and try SIGTERM again, and the machine stays NORMAL; the
    first interrupt whose SIGTERM is delivered is the last to send
    SIGTERM; every interrupt after it prints "Killing" and sends SIGKILL,
    whether or not that call raises. *)
Theorem kill_on_interrupt_escalates_after_first_delivery
    (pid : Z) (name : string) (prior : Interrupt.handler)
    (errs : list exn) (later : list (option exn)) :
  let normal := Interrupt.kill_on_interrupt Posix pid name prior in
  Interrupt.deliver_all (map Some errs) normal =
    (normal, flat_map (fun _ => stop_events pid name) errs) /\
  Interrupt.deliver_all (map Some errs ++ None :: later) normal =
    (Interrupt.kill_process pid name,
     flat_map (fun _ => stop_events pid name) errs ++
     stop_events pid name ++
     flat_map (fun _ => kill_events pid name) later).
Proof.
  cbn zeta. unfold Interrupt.kill_on_interrupt.
  split; [apply deliver_all_failures|].
  rewrite deliver_all_app, deliver_all_failures. cbn [fst snd].
  cbn [Interrupt.deliver_all Interrupt.deliver_sigint].
  cbn [bind emit call fst snd app].
  rewrite deliver_all_terminating. reflexivity.
Qed.

(** * Further properties of the Windows spawn shim *)

Section ShimLaws.

Import Shim.

Lemma get_set_same (k : string) (v : kwarg_value) (d : kwargs) :
  get k (set k v d) = Some v.
Proof.
  induction d as [|[k' v'] d IH]; cbn.
  - now rewrite String.eqb_refl.
  - destruct (String.eqb k k') eqn:E; cbn; rewrite E; [reflexivity|exact IH].
Qed.

Lemma get_set_other (k k0 : string) (v : kwarg_value) (d : kwargs) :
  String.eqb k k0 = false -> get k (set k0 v d) = get k d.
Proof.
  intros Hk. induction d as [|[k' v'] d IH]; cbn.
  - now rewrite Hk.
  - destruct (String.eqb k0 k') eqn:E; cbn.
    + apply String.eqb_eq in E. subst k'. now rewrite Hk.
    + now rewrite IH.
Qed.

Lemma get_filter (k : string) (keys : list string) (d : kwargs) :
  get k (filter (fun kv => key_in (fst kv) keys) d) =
    if key_in k keys then get k d else None.
Proof.
  induction d as [|[k' v'] d IH]; cbn [filter get fst].
  - now destruct (key_in k keys).
  - destruct (key_in k' keys) eqn:Hin; cbn [get].
    + destruct (String.eqb k k') eqn:E; [|exact IH].
      apply String.eqb_eq in E. subst k'. now rewrite Hin.
    + rewrite IH. destruct (String.eqb k k') eqn:E; [|reflexivity].
      apply String.eqb_eq in E. subst k'. now rewrite Hin.
Qed.

Lemma keys_set_new (k : string) (v : kwarg_value) (d : kwargs) :
  get k d = None -> map fst (set k v d) = map fst d ++ [k].
Proof.
  induction d as [|[k' v'] d IH]; cbn; [reflexivity|].
  destruct (String.eqb k k') eqn:E; [discriminate|].
  intros H. cbn. now rewrite IH.
Qed.

Lemma keys_filter (keys : list string) (d : kwargs) :
  map fst (filter (fun kv => key_in (fst kv) keys) d) =
    filter (fun k => key_in k keys) (map fst d).
Proof.
  induction d as [|[k' v'] d IH]; cbn; [reflexivity|].
  destruct (key_in k' keys); cbn; now rewrite IH.
Qed.

End ShimLaws.

(** What the Windows shim forwards to
    [asyncio.create_subprocess_shell], for any keyword arguments it is
    given: [creationflags] is always [CREATE_NEW_PROCESS_GROUP], whatever
    the caller asked for; [stdout], [stderr], [cwd] and [env] pass
    through unchanged and in their order; every other keyword ([stdin]
    among them) is dropped. *)
Theorem create_subprocess_forwards (kw : Shim.kwargs) (k : string) :
  Shim.get k (Shim.create_subprocess kw) =
    (if String.eqb k "creationflags"
     then Some (Shim.KInt Shim.CREATE_NEW_PROCESS_GROUP)
     else if Shim.key_in k Shim.anyio_kwargs then Shim.get k kw
     else None) /\
  map fst (Shim.create_subprocess kw) =
    filter (fun k => Shim.key_in k Shim.anyio_kwargs) (map fst kw)
    ++ ["creationflags"].
Proof.
  unfold Shim.create_subprocess. split.
  - destruct (String.eqb k "creationflags") eqn:E.
    + apply String.eqb_eq in E. subst k. apply get_set_same.
    + rewrite (get_set_other _ _ _ _ E). apply get_filter.
  - rewrite keys_set_new, keys_filter; [reflexivity|].
    rewrite get_filter. reflexivity.
Qed.

(** * Properties of [FargateTaskEnvironment.replace_values] *)

Section FargateFacts.

Import Fargate.

Lemma nth_error_update_same {X} (f : X -> X) (l : list X) :
  forall n x, nth_error l n = Some x ->
              nth_error (update n f l) n = Some (f x).
Proof.
  induction l as [|y l IH]; intros [|n] x H; try discriminate H; cbn in *.
  - now inversion H.
  - now apply IH.
Qed.

Lemma nth_error_update_other {X} (f : X -> X) (l : list X) :
  forall n m, n <> m -> nth_error (update n f l) m = nth_error l m.
Proof.
  induction l as [|y l IH]; intros [|n] [|m] H; cbn; try reflexivity.
  - contradiction.
  - apply IH. congruence.
Qed.

Lemma length_update {X} (f : X -> X) (l : list X) :
  forall n, List.length (update n f l) = List.length l.
Proof.
  induction l as [|y l IH]; intros [|n]; cbn; try reflexivity.
  now rewrite IH.
Qed.

Lemma forallb_pointwise {X} (f g : X -> bool) (l : list X) :
  (forall x, f x = g x) -> forallb f l = forallb g l.
Proof.
  intros H. induction l as [|x l IH]; [reflexivity|].
  cbn. now rewrite H, IH.
Qed.

Lemma environment_of_stable (h h' : heap) (c : nat) :
  dicts h' = dicts h -> List.length (lists h') = List.length (lists h) ->
  environment_of h' c = environment_of h c.
Proof. intros Hd Hl. unfold environment_of. now rewrite Hd, Hl. Qed.

Lemma holders_stable (h h' : heap) (defs : list nat) (a : nat) :
  dicts h' = dicts h -> List.length (lists h') = List.length (lists h) ->
  holders h' defs a = holders h defs a.
Proof.
  intros Hd Hl. unfold holders. f_equal.
  induction defs as [|c defs IH]; [reflexivity|].
  cbn. now rewrite IH, (environment_of_stable h h' c Hd Hl).
Qed.

Lemma ready_extend (env : list item) (h : heap) (c : nat) :
  ready h c = true ->
  exists a l,
    environment_of h c = Some a /\
    nth_error (lists h) a = Some l /\
    extend_environment env c h =
      ({| dicts := dicts h;
          lists := update a (fun l => l ++ env) (lists h) |}, None).
Proof.
  unfold ready, environment_of, extend_environment.
  destruct (nth_error (dicts h) c) as [d|]; [|discriminate].
  destruct (lookup "environment" d) as [[s|z|a]|]; try discriminate.
  destruct (Nat.ltb a (List.length (lists h))) eqn:Hlt; [|discriminate].
  intros _. apply Nat.ltb_lt in Hlt.
  destruct (nth_error (lists h) a) as [l|] eqn:Hn.
  - exists a, l. auto.
  - apply nth_error_None in Hn. lia.
Qed.

(** The loop over containers that are all ready: the dictionaries are
    untouched and every list object has grown by one copy of [env] per
    container that holds it. *)
Lemma extend_all_ready (env : list item) (defs : list nat) :
  forall h,
    forallb (ready h) defs = true ->
    exists ls,
      extend_all env defs h = ({| dicts := dicts h; lists := ls |}, None) /\
      List.length ls = List.length (lists h) /\
      forall a l,
        nth_error (lists h) a = Some l ->
        nth_error ls a =
          Some (l ++ List.concat (repeat env (holders h defs a))).
Proof.
  induction defs as [|c defs IH]; intros h Hr.
  - exists (lists h). destruct h as [ds ls]. cbn.
    split; [reflexivity|]. split; [reflexivity|].
    intros a l H. now rewrite app_nil_r.
  - cbn [forallb] in Hr. apply andb_true_iff in Hr as [Hc Hrest].
    destruct (ready_extend env h c Hc) as (a & l0 & Henv & Hl0 & Hext).
    cbn [extend_all]. rewrite Hext.
    set (h1 := {| dicts := dicts h;
                  lists := update a (fun l => l ++ env) (lists h) |}).
    assert (Hd1 : dicts h1 = dicts h) by reflexivity.
    assert (Hl1 : List.length (lists h1) = List.length (lists h))
      by apply length_update.
    assert (Hr1 : forallb (ready h1) defs = true).
    { rewrite <- Hrest. apply forallb_pointwise. intros c'. unfold ready.
      now rewrite (environment_of_stable h h1 c' Hd1 Hl1). }
    destruct (IH h1 Hr1) as (ls & Hall & Hlen & Hnth).
    exists ls. split; [exact Hall|]. split; [now rewrite Hlen|].
    intros x l Hx. unfold holders. cbn [flat_map]. rewrite Henv.
    cbn [app count_occ].
    fold (holders h defs x).
    rewrite <- (holders_stable h h1 defs x Hd1 Hl1).
    destruct (Nat.eq_dec a x) as [->|Hne].
    + rewrite (Hnth x (l ++ env)).
      * cbn [repeat List.concat]. now rewrite app_assoc.
      * cbn [lists h1]. rewrite (nth_error_update_same _ _ _ _ Hx).
        reflexivity.
    + rewrite (Hnth x l); [reflexivity|].
      cbn [lists h1]. now rewrite nth_error_update_other.
Qed.

Lemma extend_all_app (env : list item) (pre post : list nat) :
  forall h,
    extend_all env (pre ++ post) h =
      match extend_all env pre h with
      | (h', None) => extend_all env post h'
      | failed => failed
      end.
Proof.
  induction pre as [|c pre IH]; intros h; [reflexivity|].
  cbn [app extend_all].
  destruct (extend_environment env c h) as [h' [e|]]; [reflexivity|].
  apply IH.
Qed.

Lemma lookup_assign_same (k : string) (v : pv) (d : dict) :
  lookup k (assign k v d) = Some v.
Proof.
  induction d as [|[k' v'] d IH]; cbn.
  - now rewrite String.eqb_refl.
  - destruct (String.eqb k k') eqn:E; cbn; rewrite E; [reflexivity|exact IH].
Qed.

Lemma lookup_assign_other (k k0 : string) (v : pv) (d : dict) :
  k <> k0 -> lookup k (assign k0 v d) = lookup k d.
Proof.
  intros Hk. apply String.eqb_neq in Hk.
  induction d as [|[k' v'] d IH]; cbn.
  - now rewrite Hk.
  - destruct (String.eqb k0 k') eqn:E; cbn.
    + apply String.eqb_eq in E. subst k'. now rewrite Hk.
    + now rewrite IH.
Qed.

End FargateFacts.

(** When every container is a dictionary with a list under
    ["environment"], [replace_values] returns the list it was given and
    has appended the eight entries of [env_values], in order, to each
    environment list, once for every container that holds that list: a
    list that belongs to one container grows by one copy, a list shared
    by [n] containers (or a container named [n] times) by [n] copies,
    and a list no container holds is left as it was. *)
Theorem replace_values_extends_environments
    (api : option string) (c0 : nat) (rest : list nat)
    (docker_name flow_file_path : string) (h : Fargate.heap)
    (Hready : forallb (Fargate.ready h) (c0 :: rest) = true) :
  let r := Fargate.replace_values api (c0 :: rest)
             docker_name flow_file_path h in
  snd r = inr (c0 :: rest) /\
  forall a l,
    nth_error (Fargate.lists h) a = Some l ->
    nth_error (Fargate.lists (fst r)) a =
      Some (l ++ List.concat
                   (repeat (Fargate.env_values api docker_name flow_file_path)
                           (Fargate.holders h (c0 :: rest) a))).
Proof.
  cbn zeta. unfold Fargate.replace_values.
  destruct (extend_all_ready
              (Fargate.env_values api docker_name flow_file_path)
              (c0 :: rest) h Hready) as (ls & Hall & Hlen & Hnth).
  rewrite Hall. cbn [fst snd Fargate.lists Fargate.dicts].
  split; [reflexivity|].
  intros a l Ha. rewrite nth_error_app1.
  - now apply Hnth.
  - rewrite Hlen. apply nth_error_Some. congruence.
Qed.

Lemma replace_values_extends_environments_witness :
  forallb (Fargate.ready Fargate.shared_environment) [0%nat; 1%nat] = true /\
  nth_error
    (Fargate.lists
       (fst (Fargate.replace_values None [0%nat; 1%nat] "repo/flow:1"
               "/flow.prefect" Fargate.shared_environment))) 0 =
    Some ([Fargate.entry "A" "1"] ++
          Fargate.env_values None "repo/flow:1" "/flow.prefect" ++
          Fargate.env_values None "repo/flow:1" "/flow.prefect" ++ []).
Proof.
  split; [reflexivity|].
  exact (proj2 (replace_values_extends_environments None 0%nat [1%nat]
                  "repo/flow:1" "/flow.prefect" Fargate.shared_environment
                  eq_refl) 0%nat [Fargate.entry "A" "1"] eq_refl).
Defined.

(** Under the same condition the first container, and only the first,
    is rewritten: its ["image"] is [docker_name] and its ["command"] is a
    new list holding the three tokens of the run-flow command, whatever
    they were before; its other keys keep their values, and every other
    dictionary of the store is what it was. *)
Theorem replace_values_rewrites_first_container
    (api : option string) (c0 : nat) (rest : list nat)
    (docker_name flow_file_path : string) (h : Fargate.heap)
    (Hready : forallb (Fargate.ready h) (c0 :: rest) = true) :
  let h' := fst (Fargate.replace_values api (c0 :: rest)
                   docker_name flow_file_path h) in
  exists d d',
    nth_error (Fargate.dicts h) c0 = Some d /\
    nth_error (Fargate.dicts h') c0 = Some d' /\
    Fargate.lookup "image" d' = Some (Fargate.PStr docker_name) /\
    Fargate.lookup "command" d' =
      Some (Fargate.PList (List.length (Fargate.lists h))) /\
    nth_error (Fargate.lists h') (List.length (Fargate.lists h)) =
      Some Fargate.run_flow_command /\
    (forall k, k <> "image" -> k <> "command" ->
               Fargate.lookup k d' = Fargate.lookup k d) /\
    (forall c, c <> c0 ->
               nth_error (Fargate.dicts h') c = nth_error (Fargate.dicts h) c).
Proof.
  cbn zeta. unfold Fargate.replace_values.
  destruct (extend_all_ready
              (Fargate.env_values api docker_name flow_file_path)
              (c0 :: rest) h Hready) as (ls & Hall & Hlen & Hnth).
  rewrite Hall. cbn [fst snd Fargate.lists Fargate.dicts].
  assert (Hd : exists d, nth_error (Fargate.dicts h) c0 = Some d).
  { cbn [forallb] in Hready. apply andb_true_iff in Hready as [Hc _].
    unfold Fargate.ready, Fargate.environment_of in Hc.
    destruct (nth_error (Fargate.dicts h) c0) as [d|]; [eauto|discriminate]. }
  destruct Hd as [d Hd].
  exists d, (Fargate.assign "command" (Fargate.PList (List.length ls))
               (Fargate.assign "image" (Fargate.PStr docker_name) d)).
  split; [exact Hd|]. split.
  { apply nth_error_update_same. now apply nth_error_update_same. }
  split.
  { rewrite lookup_assign_other by discriminate. apply lookup_assign_same. }
  split.
  { rewrite lookup_assign_same, Hlen. reflexivity. }
  split.
  { rewrite <- Hlen. rewrite nth_error_app2 by lia.
    now rewrite Nat.sub_diag. }
  split.
  { intros k H1 H2. now rewrite !lookup_assign_other. }
  intros c Hc. rewrite !nth_error_update_other by congruence. reflexivity.
Qed.

Lemma replace_values_rewrites_first_container_witness :
  forallb (Fargate.ready Fargate.two_containers) [1%nat; 0%nat] = true /\
  exists d',
    nth_error
      (Fargate.dicts
         (fst (Fargate.replace_values None [1%nat; 0%nat] "repo/flow:1"
                 "/flow.prefect" Fargate.two_containers))) 1 = Some d' /\
    Fargate.lookup "image" d' = Some (Fargate.PStr "repo/flow:1") /\
    Fargate.lookup "command" d' = Some (Fargate.PList 2).
Proof.
  split; [reflexivity|].
  destruct (replace_values_rewrites_first_container None 1%nat [0%nat]
              "repo/flow:1" "/flow.prefect" Fargate.two_containers eq_refl)
    as (d & d' & _ & Hd' & Himg & Hcmd & _).
  exists d'. split; [exact Hd'|]. split; [exact Himg|exact Hcmd].
Defined.

(** [replace_values] is not all-or-nothing.  If the containers before
    some container are ready and that container is a dictionary without
    an ["environment"] key, the call raises [KeyError] for that key; by
    then the environments of the containers before it have been extended
    and stay so, while no dictionary has been touched: no image and no
    command has been set.  With no container at all the call raises
    [IndexError] and leaves the store as it was. *)
Theorem replace_values_fails_midway
    (api : option string) (before after : list nat) (c : nat)
    (docker_name flow_file_path : string) (h : Fargate.heap)
    (d : Fargate.dict)
    (Hready : forallb (Fargate.ready h) before = true)
    (Hc : nth_error (Fargate.dicts h) c = Some d)
    (Hmissing : Fargate.lookup "environment" d = None) :
  let r := Fargate.replace_values api (before ++ c :: after)
             docker_name flow_file_path h in
  snd r = inl (Fargate.KeyError "environment") /\
  Fargate.dicts (fst r) = Fargate.dicts h /\
  (forall a l,
      nth_error (Fargate.lists h) a = Some l ->
      nth_error (Fargate.lists (fst r)) a =
        Some (l ++ List.concat
                     (repeat (Fargate.env_values api docker_name flow_file_path)
                             (Fargate.holders h before a)))) /\
  Fargate.replace_values api [] docker_name flow_file_path h =
    (h, inl Fargate.IndexError).
Proof.
  cbn zeta. unfold Fargate.replace_values.
  rewrite extend_all_app.
  destruct (extend_all_ready
              (Fargate.env_values api docker_name flow_file_path)
              before h Hready) as (ls & Hall & Hlen & Hnth).
  rewrite Hall. cbn [Fargate.extend_all].
  unfold Fargate.extend_environment. cbn [Fargate.dicts].
  rewrite Hc, Hmissing. cbn [fst snd Fargate.dicts Fargate.lists].
  split; [reflexivity|]. split; [reflexivity|].
  split; [exact Hnth|reflexivity].
Qed.

Lemma replace_values_fails_midway_witness :
  forallb (Fargate.ready Fargate.with_bare_container) [0%nat] = true /\
  nth_error (Fargate.dicts Fargate.with_bare_container) 2 =
    Some [("name", Fargate.PStr "bare")] /\
  Fargate.lookup "environment" [("name", Fargate.PStr "bare")] = None /\
  snd (Fargate.replace_values None ([0%nat] ++ 2%nat :: [1%nat]) "repo/flow:1"
         "/flow.prefect" Fargate.with_bare_container) =
    inl (Fargate.KeyError "environment").
Proof.
  split; [reflexivity|]. split; [reflexivity|]. split; [reflexivity|].
  exact (proj1 (replace_values_fails_midway None [0%nat] [1%nat] 2%nat
                  "repo/flow:1" "/flow.prefect" Fargate.with_bare_container
                  [("name", Fargate.PStr "bare")]
                  eq_refl eq_refl eq_refl)).
Defined.
